(** * GeometricKernels backend extras: a shallow embedding

    The development follows the three source files
    - [geometric_kernels/lab_extras/numpy/extras.py]
    - [geometric_kernels/lab_extras/tensorflow/extras.py]
    - [geometric_kernels/frontends/pytorch/gpytorch.py]

    Arrays are lists, Python objects that are mutated or allocated live in
    an explicit store ([gmap] from locations to contents), and functions
    that may raise return a sum of an exception and a result. *)

From Stdlib Require Import QArith Qcanon.
From stdpp Require Import base decidable option list numbers strings gmap sorting.

Close Scope Q_scope.
Close Scope Qc_scope.

(** ** Exceptions raised by the modelled code *)

Inductive exn :=
  | DuplicateRegistrationError
  | ValueError (msg : string)
  | IndexError
  | InvalidArgumentError
  | TypeError
  | RuntimeError.

#[global] Instance exn_eq_dec : EqDecision exn.
Proof. solve_decision. Defined.

(** A computation that either raises or returns. *)
Definition result (A : Type) : Type := (exn + A)%type.

Definition ret {A} (a : A) : result A := inr a.
Definition raise {A} (e : exn) : result A := inl e.
Definition bind {A B} (m : result A) (k : A -> result B) : result B :=
  match m with
  | inl e => inl e
  | inr a => k a
  end.

(** ** Floating-point values

    Array elements and scalars: exact rationals extended with the two
    infinities and NaN.  Rounding, overflow, subnormal numbers and the sign
    of zero are not modelled. *)
Inductive fval := Fin (q : Qc) | PInf | NInf | NaN.

#[global] Instance fval_eq_dec : EqDecision fval.
Proof. solve_decision. Defined.

(** The comparison [v == w] on elements: NaN equals nothing. *)
Definition feq (v w : fval) : bool :=
  match v, w with
  | NaN, _ | _, NaN => false
  | _, _ => bool_decide (v = w)
  end.

(** ** Machine integers

    An integer of a [bits]-bit signed dtype (int32, int64) is a [Z] in
    the range of the dtype; arithmetic on such arrays wraps around, and
    [wrap bits] is the value kept. *)
Definition wrap (bits z : Z) : Z :=
  ((z + 2 ^ (bits - 1)) mod 2 ^ bits - 2 ^ (bits - 1))%Z.

Definition in_range (bits z : Z) : Prop :=
  (- 2 ^ (bits - 1) <= z < 2 ^ (bits - 1))%Z.

Lemma pow2_double (bits : Z) :
  (0 < bits)%Z -> (2 ^ bits = 2 * 2 ^ (bits - 1) /\ 0 < 2 ^ (bits - 1))%Z.
Proof.
  intros Hb. split.
  - rewrite <- Z.pow_succ_r by lia. f_equal. lia.
  - apply Z.pow_pos_nonneg; lia.
Qed.

Lemma wrap_in_range (bits z : Z) : (0 < bits)%Z -> in_range bits (wrap bits z).
Proof.
  intros Hb. destruct (pow2_double bits Hb) as [H2 Hpos].
  unfold in_range, wrap.
  pose proof (Z.mod_pos_bound (z + 2 ^ (bits - 1)) (2 ^ bits) ltac:(lia)).
  lia.
Qed.

Lemma wrap_id (bits z : Z) : (0 < bits)%Z -> in_range bits z -> wrap bits z = z.
Proof.
  intros Hb Hz. destruct (pow2_double bits Hb) as [H2 Hpos].
  unfold in_range in Hz. unfold wrap.
  rewrite Z.mod_small by lia. lia.
Qed.

Lemma wrap_add_l (bits a b : Z) :
  (0 < bits)%Z -> wrap bits (wrap bits a + b) = wrap bits (a + b).
Proof.
  intros Hb. destruct (pow2_double bits Hb) as [H2 Hpos].
  unfold wrap. f_equal.
  replace ((a + 2 ^ (bits - 1)) mod 2 ^ bits - 2 ^ (bits - 1) + b + 2 ^ (bits - 1))%Z
    with ((a + 2 ^ (bits - 1)) mod 2 ^ bits + b)%Z by lia.
  rewrite Zplus_mod_idemp_l. f_equal. lia.
Qed.

Lemma wrap_add_r (bits a b : Z) :
  (0 < bits)%Z -> wrap bits (a + wrap bits b) = wrap bits (a + b).
Proof.
  intros Hb. rewrite (Z.add_comm a), wrap_add_l by done. by rewrite Z.add_comm.
Qed.

Lemma wrap_mod (bits z : Z) :
  (0 < bits)%Z -> (wrap bits z mod 2 ^ bits = z mod 2 ^ bits)%Z.
Proof.
  intros Hb. destruct (pow2_double bits Hb) as [H2 Hpos].
  unfold wrap.
  rewrite Zminus_mod_idemp_l. f_equal. lia.
Qed.

Lemma wrap_congr (bits a b : Z) :
  (a mod 2 ^ bits = b mod 2 ^ bits)%Z -> wrap bits a = wrap bits b.
Proof.
  intros H. unfold wrap. f_equal.
  rewrite <- (Zplus_mod_idemp_l a), <- (Zplus_mod_idemp_l b). by rewrite H.
Qed.

Lemma wrap_sub (bits a b : Z) :
  (0 < bits)%Z -> wrap bits (wrap bits a - wrap bits b) = wrap bits (a - b).
Proof.
  intros Hb. apply wrap_congr.
  rewrite Zminus_mod, !wrap_mod by done. by rewrite <- Zminus_mod.
Qed.

Lemma wrap_wrap (bits z : Z) : (0 < bits)%Z -> wrap bits (wrap bits z) = wrap bits z.
Proof.
  intros Hb. apply wrap_id; [done|]. by apply wrap_in_range.
Qed.

(** ** Objects and the store

    A Python object that is shared or mutated (a tensor bound to a name, a
    random generator, a TensorFlow variable) lives in a store at a location;
    constructing an object allocates a location the store does not use. *)

Definition loc := nat.

Section store.
Context {V : Type}.

Definition alloc (v : V) (σ : gmap loc V) : gmap loc V * loc :=
  let l := fresh (dom σ) in (<[l := v]> σ, l).

Lemma alloc_fresh (v : V) (σ : gmap loc V) : σ !! (alloc v σ).2 = None.
Proof.
  unfold alloc; simpl. apply not_elem_of_dom. apply is_fresh.
Qed.

Lemma alloc_lookup_new (v : V) (σ : gmap loc V) :
  (alloc v σ).1 !! (alloc v σ).2 = Some v.
Proof. unfold alloc; simpl. apply lookup_insert_eq. Qed.

Lemma alloc_lookup_old (v : V) (σ : gmap loc V) l :
  is_Some (σ !! l) -> (alloc v σ).1 !! l = σ !! l.
Proof.
  intros Hl. unfold alloc; simpl. apply lookup_insert_ne.
  intros <-. pose proof (alloc_fresh v σ) as Hf. unfold alloc in Hf; simpl in Hf.
  rewrite Hf in Hl. by destruct Hl.
Qed.

Lemma alloc_ne_old (v : V) (σ : gmap loc V) l :
  is_Some (σ !! l) -> (alloc v σ).2 <> l.
Proof.
  intros Hl Heq. pose proof (alloc_fresh v σ) as Hf.
  rewrite Heq in Hf. rewrite Hf in Hl. by destruct Hl.
Qed.

End store.

(** * The dispatch registry and the registrations of the numpy module *)

Module Registry.

(** The classes that occur in the annotations of numpy/extras.py. *)
Inductive atom :=
  | Number | NPNumeric | PyList | PyInt | NoneType
  | NPRandomState | Spmatrix | Any.

#[global] Instance atom_eq_dec : EqDecision atom.
Proof. solve_decision. Defined.

(** An annotation is the list of the members of its union: a plain class
    is a one-element list, [Optional[T]] adds [NoneType]. *)
Definition pattern := list atom.
Definition signature := list pattern.

(** [_Numeric = Union[B.Number, B.NPNumeric]] (numpy/extras.py, line 9). *)
Definition np_Numeric : pattern := [Number; NPNumeric].

(** A registration entry; the implementation is named by the line of its
    [def] in the module. *)
Record entry := Entry {
  e_op : string;
  e_sig : signature;
  e_impl : nat
}.

Definition registry := list entry.

Definition same_key (op : string) (sg : signature) (e : entry) : bool :=
  bool_decide (e_op e = op) && bool_decide (e_sig e = sg).

Definition registered (op : string) (sg : signature) (r : registry) : bool :=
  existsb (same_key op sg) r.

(** Modelled from the spec: the registry's [register] is not part of the
    sources (the modules only import [dispatch] from [lab]).  Section 4.1:
    [register] associates an implementation with a signature and fails
    with [DuplicateRegistrationError] if an identical signature is already
    registered for that operation. *)
Definition register (op : string) (sg : signature) (impl : nat)
    (r : registry) : result registry :=
  if registered op sg r then raise DuplicateRegistrationError
  else ret (r ++ [Entry op sg impl])%list.

(** Loading a module runs its [@dispatch] decorators from top to bottom. *)
Fixpoint load_module (defs : list entry) (r : registry) : result registry :=
  match defs with
  | [] => ret r
  | d :: defs' =>
      bind (register (e_op d) (e_sig d) (e_impl d) r) (load_module defs')
  end.

(** The decorated definitions of numpy/extras.py, in source order, with
    the annotation of each parameter (an unannotated one is [Any]). *)
Definition numpy_extras : list entry :=
  [ Entry "take_along_axis" [np_Numeric; np_Numeric; [PyInt]] 13;
    Entry "from_numpy" [[NPNumeric]; [PyList; NPNumeric; Number]] 21;
    Entry "trapz" [np_Numeric; np_Numeric; np_Numeric; [PyInt]] 29;
    Entry "qr" [np_Numeric] 37;
    Entry "norm" [np_Numeric; [Any; NoneType]; [PyInt; NoneType]] 45;
    Entry "logspace" [np_Numeric; np_Numeric; [PyInt]; np_Numeric] 53;
    Entry "degree" [np_Numeric] 61;
    Entry "dtype_double" [[NPRandomState]] 73;
    Entry "float_like" [[NPNumeric]] 81;
    Entry "dtype_integer" [[NPRandomState]] 94;
    Entry "get_random_state" [[NPRandomState]] 102;
    Entry "restore_random_state" [[NPRandomState]; [Any]] 114;
    Entry "create_complex" [np_Numeric; np_Numeric] 129;
    Entry "dtype_complex" [[NPNumeric]] 145;
    Entry "cumsum" [np_Numeric; [Any]] 156;
    Entry "qr" [np_Numeric] 164;
    Entry "slogdet" [np_Numeric] 173;
    Entry "eigvalsh" [np_Numeric] 182;
    Entry "reciprocal_no_nan" [[NPNumeric]] 190;
    Entry "reciprocal_no_nan" [[Spmatrix]] 200 ].

(** The definitions that precede the second [qr] (line 164). *)
Definition numpy_extras_before_second_qr : list entry := take 15 numpy_extras.

Lemma same_key_refl op sg impl : same_key op sg (Entry op sg impl) = true.
Proof.
  unfold same_key; simpl.
  rewrite !bool_decide_eq_true_2; done.
Qed.

Lemma registered_app op sg r1 r2 :
  registered op sg (r1 ++ r2) = registered op sg r1 || registered op sg r2.
Proof. unfold registered. apply existsb_app. Qed.

Lemma registered_after_register op sg impl r r' :
  register op sg impl r = inr r' -> registered op sg r' = true.
Proof.
  unfold register. destruct (registered op sg r) eqn:E; [discriminate|].
  intros [= <-]. rewrite registered_app. simpl.
  rewrite same_key_refl. rewrite orb_true_r. done.
Qed.

Lemma register_only_duplicate op sg impl r e :
  register op sg impl r = inl e -> e = DuplicateRegistrationError.
Proof.
  unfold register. destruct (registered op sg r); [|discriminate].
  by intros [= <-].
Qed.

(** C1. Registering a signature that is already registered for the
    operation fails with [DuplicateRegistrationError]: whatever the
    registry, two registrations of one signature for one operation in a
    row end in that error, and a registration on a registry that already
    holds the signature is refused.  In particular the numpy module
    registers [qr] for [_Numeric] at line 37 and again at line 164: the
    definitions before line 164 load, and the registration of line 164 and
    with it the load of the module raise the error. *)
Theorem register_duplicate_fails :
  (forall r op sg impl1 impl2,
      bind (register op sg impl1 r) (register op sg impl2)
      = raise DuplicateRegistrationError) /\
  (forall r op sg impl,
      registered op sg r = true ->
      register op sg impl r = raise DuplicateRegistrationError) /\
  (exists r,
      load_module numpy_extras_before_second_qr [] = ret r /\
      registered "qr" [np_Numeric] r = true /\
      register "qr" [np_Numeric] 164 r = raise DuplicateRegistrationError) /\
  load_module numpy_extras [] = raise DuplicateRegistrationError.
Proof.
  split; [|split; [|split]].
  - intros r op sg impl1 impl2.
    destruct (register op sg impl1 r) as [e|r'] eqn:E; simpl.
    + by rewrite (register_only_duplicate _ _ _ _ _ E).
    + unfold register. by rewrite (registered_after_register _ _ _ _ _ E).
  - intros r op sg impl H. unfold register. by rewrite H.
  - eexists. split; [vm_compute; reflexivity|].
    split; vm_compute; reflexivity.
  - vm_compute. reflexivity.
Qed.

Lemma register_duplicate_fails_witness :
  registered "qr" [np_Numeric] [Entry "qr" [np_Numeric] 37] = true /\
  register "qr" [np_Numeric] 164 [Entry "qr" [np_Numeric] 37]
  = raise DuplicateRegistrationError.
Proof.
  split; [reflexivity|].
  apply (proj1 (proj2 register_duplicate_fails)). reflexivity.
Defined.

End Registry.

(** * Dtype queries: [float_like], [dtype_double] *)

Module Dtypes.

(** ** numpy: dtypes and the scalar type hierarchy *)

(** The dtypes an array can have. *)
Inductive np_dtype :=
  | np_bool | np_int8 | np_int16 | np_int32 | np_int64
  | np_uint8 | np_uint16 | np_uint32 | np_uint64
  | np_float16 | np_float32 | np_float64 | np_longdouble
  | np_complex64 | np_complex128 | np_clongdouble
  | np_datetime64 | np_timedelta64 | np_object | np_bytes | np_str | np_void.

#[global] Instance np_dtype_eq_dec : EqDecision np_dtype.
Proof. solve_decision. Defined.

(** The scalar classes: numpy's abstract classes and, as leaves, the class
    of each dtype ([dtype.type]). *)
Inductive np_class :=
  | np_generic | np_number | np_integer | np_signedinteger
  | np_unsignedinteger | np_inexact | np_floating | np_complexfloating
  | np_flexible | np_character
  | np_type (d : np_dtype).

#[global] Instance np_class_eq_dec : EqDecision np_class.
Proof. solve_decision. Defined.

(** The base class of each class, as numpy declares them. *)
Definition np_parent (c : np_class) : option np_class :=
  match c with
  | np_generic => None
  | np_number | np_flexible => Some np_generic
  | np_integer | np_inexact => Some np_number
  | np_signedinteger | np_unsignedinteger => Some np_integer
  | np_floating | np_complexfloating => Some np_inexact
  | np_character => Some np_flexible
  | np_type d =>
      match d with
      | np_bool | np_datetime64 | np_object => Some np_generic
      | np_int8 | np_int16 | np_int32 | np_int64 | np_timedelta64 =>
          Some np_signedinteger
      | np_uint8 | np_uint16 | np_uint32 | np_uint64 =>
          Some np_unsignedinteger
      | np_float16 | np_float32 | np_float64 | np_longdouble =>
          Some np_floating
      | np_complex64 | np_complex128 | np_clongdouble =>
          Some np_complexfloating
      | np_bytes | np_str => Some np_character
      | np_void => Some np_flexible
      end
  end.

(** [issubclass] along the chain of base classes (at most five steps). *)
Fixpoint np_issubclass (fuel : nat) (c target : np_class) : bool :=
  bool_decide (c = target) ||
  match fuel with
  | O => false
  | S fuel' =>
      match np_parent c with
      | Some p => np_issubclass fuel' p target
      | None => false
      end
  end.

(** [np.issubdtype(d, cls)] for a dtype [d] and a scalar class [cls]. *)
Definition np_issubdtype (d : np_dtype) (cls : np_class) : bool :=
  np_issubclass 5 (np_type d) cls.

(** What [float_like] reads of its reference: the [dtype] attribute. *)
Record ndarray := NDArray { dtype : np_dtype; shape : list nat }.

(** numpy/extras.py, [dtype_double]. *)
Definition np_dtype_double : np_dtype := np_float64.

(** numpy/extras.py, [float_like]. *)
Definition np_float_like (reference : ndarray) : np_dtype :=
  let reference_dtype := dtype reference in
  if np_issubdtype reference_dtype np_floating then reference_dtype
  else np_float64.

(** ** tensorflow: [tf.DType] and its [is_floating] property *)
Inductive tf_dtype :=
  | tf_float16 | tf_bfloat16 | tf_float32 | tf_float64
  | tf_int8 | tf_int16 | tf_int32 | tf_int64
  | tf_uint8 | tf_uint16 | tf_uint32 | tf_uint64
  | tf_bool | tf_complex64 | tf_complex128 | tf_string
  | tf_qint8 | tf_quint8 | tf_qint16 | tf_quint16 | tf_qint32
  | tf_resource | tf_variant.

#[global] Instance tf_dtype_eq_dec : EqDecision tf_dtype.
Proof. solve_decision. Defined.

Definition tf_is_floating (d : tf_dtype) : bool :=
  match d with
  | tf_float16 | tf_bfloat16 | tf_float32 | tf_float64 => true
  | _ => false
  end.

Record tensor := Tensor { tdtype : tf_dtype; tshape : list nat }.

(** tensorflow/extras.py, [dtype_double]. *)
Definition tf_dtype_double : tf_dtype := tf_float64.

(** tensorflow/extras.py, [float_like]. *)
Definition tf_float_like (reference : tensor) : tf_dtype :=
  let reference_dtype := tdtype reference in
  if tf_is_floating reference_dtype then reference_dtype
  else tf_float64.

(** The floating-point dtypes of each backend. *)
Definition np_floating_dtypes : list np_dtype :=
  [np_float16; np_float32; np_float64; np_longdouble].
Definition tf_floating_dtypes : list tf_dtype :=
  [tf_float16; tf_bfloat16; tf_float32; tf_float64].

Lemma np_issubdtype_floating d :
  np_issubdtype d np_floating = bool_decide (d ∈ np_floating_dtypes).
Proof. destruct d; vm_compute; reflexivity. Qed.

Lemma tf_is_floating_spec d :
  tf_is_floating d = bool_decide (d ∈ tf_floating_dtypes).
Proof. destruct d; vm_compute; reflexivity. Qed.

(** C8. [float_like] returns the dtype of its reference when that dtype is
    one of the backend's floating-point dtypes and the backend's double
    dtype, [float64], otherwise; this holds of the numpy and of the
    tensorflow implementation. *)
Theorem float_like_floating_or_double :
  (forall reference : ndarray,
      np_float_like reference =
      if bool_decide (dtype reference ∈ np_floating_dtypes)
      then dtype reference else np_dtype_double) /\
  (forall reference : tensor,
      tf_float_like reference =
      if bool_decide (tdtype reference ∈ tf_floating_dtypes)
      then tdtype reference else tf_dtype_double) /\
  np_dtype_double = np_float64 /\ tf_dtype_double = tf_float64.
Proof.
  repeat split.
  - intros [d sh]. unfold np_float_like. simpl.
    by rewrite np_issubdtype_floating.
  - intros [d sh]. unfold tf_float_like. simpl.
    by rewrite tf_is_floating_spec.
Qed.

(** The result of [float_like] is always a floating-point dtype. *)
Lemma np_float_like_is_floating reference :
  np_float_like reference ∈ np_floating_dtypes.
Proof.
  destruct reference as [d sh]. unfold np_float_like; simpl.
  rewrite np_issubdtype_floating. case_bool_decide; [done|].
  unfold np_floating_dtypes. rewrite !elem_of_cons. tauto.
Qed.

Lemma tf_float_like_is_floating reference :
  tf_float_like reference ∈ tf_floating_dtypes.
Proof.
  destruct reference as [d sh]. unfold tf_float_like; simpl.
  rewrite tf_is_floating_spec. case_bool_decide; [done|].
  unfold tf_floating_dtypes. rewrite !elem_of_cons. tauto.
Qed.

(** ** The other dtype queries, and the two backends side by side *)

(** numpy/extras.py, [dtype_integer]. *)
Definition np_dtype_integer : np_dtype := np_int64.

(** tensorflow/extras.py, [dtype_integer]. *)
Definition tf_dtype_integer : tf_dtype := tf_int32.

(** numpy/extras.py, [dtype_complex]. *)
Definition np_dtype_complex (reference : ndarray) : np_dtype :=
  if bool_decide (dtype reference = np_float32) then np_complex64
  else np_complex128.

(** tensorflow/extras.py, [dtype_complex]. *)
Definition tf_dtype_complex (reference : tensor) : tf_dtype :=
  if bool_decide (tdtype reference = tf_float32) then tf_complex64
  else tf_complex128.

(** The TensorFlow dtype of the same name as a numpy dtype
    ([tf.as_dtype]), for the boolean, integer, floating and complex dtypes
    both libraries have. *)
Definition tf_counterpart (d : np_dtype) : option tf_dtype :=
  match d with
  | np_bool => Some tf_bool
  | np_int8 => Some tf_int8 | np_int16 => Some tf_int16
  | np_int32 => Some tf_int32 | np_int64 => Some tf_int64
  | np_uint8 => Some tf_uint8 | np_uint16 => Some tf_uint16
  | np_uint32 => Some tf_uint32 | np_uint64 => Some tf_uint64
  | np_float16 => Some tf_float16 | np_float32 => Some tf_float32
  | np_float64 => Some tf_float64
  | np_complex64 => Some tf_complex64 | np_complex128 => Some tf_complex128
  | _ => None
  end.

(** X23. The backends side by side: for a numpy reference and a tensor of
    the same dtype, [float_like] and [dtype_complex] return dtypes of the
    same name on both backends, and so does [dtype_double]; [dtype_integer]
    does not: it is [int64] on numpy and [int32] on tensorflow. *)
Theorem dtype_queries_across_backends (r : ndarray) (t : tensor) :
  tf_counterpart (dtype r) = Some (tdtype t) ->
  tf_counterpart (np_float_like r) = Some (tf_float_like t) /\
  tf_counterpart (np_dtype_complex r) = Some (tf_dtype_complex t) /\
  tf_counterpart np_dtype_double = Some tf_dtype_double /\
  tf_counterpart np_dtype_integer = Some tf_int64 /\
  tf_dtype_integer = tf_int32.
Proof.
  destruct r as [d sh], t as [td tsh]. simpl. intros H.
  destruct d; simpl in H; try discriminate H;
    injection H as <-; repeat split; reflexivity.
Qed.

Lemma dtype_queries_across_backends_witness :
  tf_counterpart (np_float_like (NDArray np_int32 [3%nat]))
  = Some (tf_float_like (Tensor tf_int32 [3%nat])) /\
  tf_counterpart (np_dtype_complex (NDArray np_int32 [3%nat]))
  = Some (tf_dtype_complex (Tensor tf_int32 [3%nat])) /\
  tf_counterpart np_dtype_double = Some tf_dtype_double /\
  tf_counterpart np_dtype_integer = Some tf_int64 /\
  tf_dtype_integer = tf_int32.
Proof.
  apply (dtype_queries_across_backends (NDArray np_int32 [3%nat])
           (Tensor tf_int32 [3%nat])).
  reflexivity.
Defined.

End Dtypes.

(** * Safe reciprocal: [reciprocal_no_nan] *)

Module Reciprocal.

Local Open Scope Qc_scope.

(** [1 / v] together with the divide-by-zero flag numpy raises as a
    [RuntimeWarning]. *)
Definition reciprocal_flagged (v : fval) : fval * bool :=
  match v with
  | Fin q => if bool_decide (q = 0) then (PInf, true) else (Fin (/ q), false)
  | PInf | NInf => (Fin 0, false)
  | NaN => (NaN, false)
  end.

Definition reciprocal (v : fval) : fval := fst (reciprocal_flagged v).
Definition divides_by_zero (v : fval) : bool := snd (reciprocal_flagged v).

(** [np.equal(x, c)] for an array and a scalar. *)
Definition np_equal (x : list fval) (c : fval) : list bool :=
  map (fun v => feq v c) x.

(** [np.where(cond, s, a)] for a scalar [s] and an array [a]. *)
Definition np_where (cond : list bool) (s : fval) (a : list fval) : list fval :=
  zip_with (fun (c : bool) v => if c then s else v) cond a.

(** [np.reciprocal(a)]. *)
Definition np_reciprocal (a : list fval) : list fval := map reciprocal a.

(** Whether [np.reciprocal(a)] divides by zero at some entry. *)
Definition np_reciprocal_divides_by_zero (a : list fval) : bool :=
  existsb divides_by_zero a.

(** numpy/extras.py, [reciprocal_no_nan] on a dense array: the array
    [safe_x] of line 195 ... *)
Definition safe_x (x : list fval) : list fval :=
  let x_is_zero := np_equal x (Fin 0) in
  np_where x_is_zero (Fin 1) x.

(** ... and the function. *)
Definition reciprocal_no_nan (x : list fval) : list fval :=
  let x_is_zero := np_equal x (Fin 0) in
  let safe_x := np_where x_is_zero (Fin 1) x in
  np_where x_is_zero (Fin 0) (np_reciprocal safe_x).

(** tensorflow/extras.py, [reciprocal_no_nan]: the call of
    [tf.math.reciprocal_no_nan], which sets the reciprocal of a zero element
    to zero. *)
Definition tf_math_reciprocal_no_nan (x : list fval) : list fval :=
  map (fun v => if feq v (Fin 0) then Fin 0 else reciprocal v) x.

Definition tf_reciprocal_no_nan (x : list fval) : list fval :=
  tf_math_reciprocal_no_nan x.

(** ** Sparse matrices (scipy, coordinate format)

    A matrix stores a list of entries, each a (row, column) coordinate with
    its value; a coordinate may be stored more than once, and a stored value
    may be zero. *)
Record spmatrix := SpMatrix {
  sp_shape : nat * nat;
  sp_entries : list ((nat * nat) * fval)
}.

Definition sp_coords (m : spmatrix) : list (nat * nat) := (sp_entries m).*1.
Definition sp_data (m : spmatrix) : list fval := (sp_entries m).*2.

(** Addition of elements, used when duplicates are summed. *)
Definition fadd (v w : fval) : fval :=
  match v, w with
  | NaN, _ | _, NaN => NaN
  | PInf, NInf | NInf, PInf => NaN
  | PInf, _ | _, PInf => PInf
  | NInf, _ | _, NInf => NInf
  | Fin a, Fin b => Fin (a + b)
  end.

(** The order of the canonical format: by row, then by column. *)
Definition coord_ltb (k k' : nat * nat) : bool :=
  (k.1 <? k'.1)%nat || ((k.1 =? k'.1)%nat && (k.2 <? k'.2)%nat).

Fixpoint insert_sum (k : nat * nat) (v : fval)
    (l : list ((nat * nat) * fval)) : list ((nat * nat) * fval) :=
  match l with
  | [] => [(k, v)]
  | (k', v') :: l' =>
      if bool_decide (k = k') then (k', fadd v' v) :: l'
      else if coord_ltb k k' then (k, v) :: l
      else (k', v') :: insert_sum k v l'
  end.

(** [sum_duplicates]: entries sorted, duplicates added together. *)
Definition sum_duplicates (m : spmatrix) : spmatrix :=
  SpMatrix (sp_shape m)
    (foldl (fun acc e => insert_sum e.1 e.2 acc) [] (sp_entries m)).

(** Canonical format: the coordinates strictly increasing in that order,
    hence no duplicates. *)
Definition canonical (m : spmatrix) : Prop :=
  StronglySorted (fun e e' => coord_ltb e.1 e'.1 = true) (sp_entries m).

(** [m._with_data(d)]: the structure of [m] with the data [d]. *)
Definition with_data (m : spmatrix) (d : list fval) : spmatrix :=
  SpMatrix (sp_shape m) (zip (sp_coords m) d).

(** numpy/extras.py, [reciprocal_no_nan] on a sparse matrix.
    [x._deduped_data()] sums the duplicates of [x] in place and returns its
    data array, so the call returns the matrix [x] as the call leaves it
    together with the result. *)
Definition reciprocal_no_nan_sparse (x : spmatrix) : spmatrix * spmatrix :=
  let x' := sum_duplicates x in
  (x', with_data x' (reciprocal_no_nan (sp_data x'))).

(** The safe reciprocal as specified: [0] at a zero entry, [1/v] at any
    other. *)
Definition safe_reciprocal (v : fval) : fval :=
  if bool_decide (v = Fin 0) then Fin 0 else reciprocal v.

Lemma feq_zero v : feq v (Fin 0) = bool_decide (v = Fin 0).
Proof. destruct v; reflexivity. Qed.

Lemma divides_by_zero_iff v : divides_by_zero v = bool_decide (v = Fin 0).
Proof.
  destruct v as [q| | |]; try reflexivity.
  unfold divides_by_zero, reciprocal_flagged.
  destruct (bool_decide_reflect (q = 0)) as [->|Hq].
  - reflexivity.
  - simpl. symmetry. apply bool_decide_eq_false. congruence.
Qed.

Lemma safe_x_map x :
  safe_x x = map (fun v => if bool_decide (v = Fin 0) then Fin 1 else v) x.
Proof.
  unfold safe_x, np_where, np_equal.
  induction x as [|v x IH]; [reflexivity|].
  simpl. rewrite IH, feq_zero. reflexivity.
Qed.

Lemma one_not_zero : Fin 1 <> Fin 0.
Proof. intros [= H]. Qed.

Lemma reciprocal_no_nan_map x : reciprocal_no_nan x = map safe_reciprocal x.
Proof.
  unfold reciprocal_no_nan, np_where, np_equal, np_reciprocal.
  induction x as [|v x IH]; [reflexivity|].
  simpl. rewrite IH. f_equal.
  unfold safe_reciprocal. rewrite feq_zero.
  destruct (bool_decide (v = Fin 0)); reflexivity.
Qed.

Lemma reciprocal_fin q : q <> 0 -> reciprocal (Fin q) = Fin (1 / q).
Proof.
  intros Hq. unfold reciprocal, reciprocal_flagged.
  rewrite bool_decide_eq_false_2 by done. simpl.
  f_equal. unfold Qcdiv. by rewrite Qcmult_1_l.
Qed.

Lemma insert_sum_coords k v l k' :
  k' ∈ (insert_sum k v l).*1 <-> k' = k \/ k' ∈ l.*1.
Proof.
  induction l as [|[k0 v0] l IH]; simpl.
  - rewrite list_elem_of_singleton, elem_of_nil. tauto.
  - case_bool_decide as Hk.
    + subst k0. simpl. rewrite elem_of_cons. tauto.
    + destruct (coord_ltb k k0); simpl.
      * rewrite !elem_of_cons. tauto.
      * rewrite !elem_of_cons, IH. tauto.
Qed.

Lemma foldl_insert_sum_coords es acc k' :
  k' ∈ (foldl (fun acc e => insert_sum e.1 e.2 acc) acc es).*1
  <-> k' ∈ acc.*1 \/ k' ∈ es.*1.
Proof.
  revert acc. induction es as [|[k v] es IH]; intros acc; simpl.
  - rewrite elem_of_nil. tauto.
  - rewrite IH, insert_sum_coords, elem_of_cons. tauto.
Qed.

Lemma sum_duplicates_coords m k :
  k ∈ sp_coords (sum_duplicates m) <-> k ∈ sp_coords m.
Proof.
  unfold sp_coords, sum_duplicates; simpl.
  rewrite foldl_insert_sum_coords. simpl. rewrite elem_of_nil. tauto.
Qed.

Lemma coord_ltb_asym k k' :
  coord_ltb k k' = true -> coord_ltb k' k = false /\ k' <> k.
Proof.
  destruct k as [r c], k' as [r' c']. unfold coord_ltb; simpl.
  intros H. apply orb_true_iff in H.
  assert (Hlt : (r < r')%nat \/ (r = r' /\ (c < c')%nat)).
  { destruct H as [H|H]; [left; by apply Nat.ltb_lt|right].
    apply andb_true_iff in H as [H1 H2].
    split; [by apply Nat.eqb_eq|by apply Nat.ltb_lt]. }
  split.
  - apply orb_false_iff. split; [apply Nat.ltb_ge; lia|].
    apply andb_false_iff.
    destruct Hlt as [Hlt|[-> Hlt]]; [left; apply Nat.eqb_neq; lia|].
    right. apply Nat.ltb_ge. lia.
  - intros [= -> ->]. lia.
Qed.

Lemma insert_sum_last k v (l : list ((nat * nat) * fval)) :
  Forall (fun e => coord_ltb e.1 k = true) l ->
  insert_sum k v l = (l ++ [(k, v)])%list.
Proof.
  induction 1 as [|[k0 v0] l Hlt _ IH]; simpl; [reflexivity|].
  simpl in Hlt. destruct (coord_ltb_asym _ _ Hlt) as [Hge Hne].
  rewrite bool_decide_eq_false_2 by done.
  rewrite Hge, IH. reflexivity.
Qed.

Lemma foldl_insert_sum_canonical (es acc : list ((nat * nat) * fval)) :
  StronglySorted (fun e e' => coord_ltb e.1 e'.1 = true) (acc ++ es) ->
  foldl (fun acc e => insert_sum e.1 e.2 acc) acc es = (acc ++ es)%list.
Proof.
  revert acc. induction es as [|[k v] es IH]; intros acc Hs; simpl.
  - by rewrite app_nil_r.
  - rewrite insert_sum_last.
    + rewrite IH; rewrite <- app_assoc; [reflexivity|exact Hs].
    + apply StronglySorted_app in Hs as (Hall & _ & _).
      apply Forall_forall. intros e He.
      apply (Hall e (k, v) He). apply elem_of_cons. by left.
Qed.

Lemma sum_duplicates_canonical m : canonical m -> sum_duplicates m = m.
Proof.
  intros Hm. destruct m as [sh es]. unfold sum_duplicates; simpl.
  f_equal. by apply (foldl_insert_sum_canonical es []).
Qed.

Lemma with_data_coords m d :
  length d = length (sp_coords m) -> sp_coords (with_data m d) = sp_coords m.
Proof.
  intros H. unfold sp_coords at 1, with_data; simpl.
  apply fst_zip. lia.
Qed.

Lemma with_data_data m d :
  length d = length (sp_coords m) -> sp_data (with_data m d) = d.
Proof.
  intros H. unfold sp_data at 1, with_data; simpl.
  apply snd_zip. lia.
Qed.

Lemma reciprocal_no_nan_length x : length (reciprocal_no_nan x) = length x.
Proof. rewrite reciprocal_no_nan_map. apply length_map. Qed.

Lemma sp_data_length m : length (sp_data m) = length (sp_coords m).
Proof. unfold sp_data, sp_coords. by rewrite !length_fmap. Qed.

(** C10. In the dense numpy implementation the reciprocal is taken of
    [safe_x], in which every zero entry of [x] is replaced by [1.0] and
    every other entry is kept: no entry of [safe_x] is zero, and
    [np.reciprocal(safe_x)] divides by zero nowhere. *)
Theorem reciprocal_never_at_zero (x : list fval) :
  reciprocal_no_nan x
  = np_where (np_equal x (Fin 0)) (Fin 0) (np_reciprocal (safe_x x)) /\
  safe_x x = map (fun v => if bool_decide (v = Fin 0) then Fin 1 else v) x /\
  Forall (fun y => y <> Fin 0) (safe_x x) /\
  np_reciprocal_divides_by_zero (safe_x x) = false.
Proof.
  split; [reflexivity|].
  split; [apply safe_x_map|].
  assert (Hnz : Forall (fun y => y <> Fin 0) (safe_x x)).
  { rewrite safe_x_map. apply Forall_forall. intros y Hy.
    apply list_elem_of_In, in_map_iff in Hy as (v & <- & _).
    case_bool_decide; [apply one_not_zero|done]. }
  split; [exact Hnz|].
  unfold np_reciprocal_divides_by_zero.
  apply not_true_iff_false. intros Hex.
  apply existsb_exists in Hex as (y & Hy & Hd).
  rewrite divides_by_zero_iff in Hd. apply bool_decide_eq_true in Hd.
  rewrite Forall_forall in Hnz. by apply (Hnz y); [apply list_elem_of_In|].
Qed.

(** ** Further properties of the dense [reciprocal_no_nan] *)

Lemma safe_reciprocal_nan v : safe_reciprocal v = NaN <-> v = NaN.
Proof.
  split; [|by intros ->].
  unfold safe_reciprocal. case_bool_decide; [done|].
  destruct v as [q| | |]; try done.
  unfold reciprocal, reciprocal_flagged.
  by destruct (bool_decide (q = 0)).
Qed.

(** X10. Whatever the input, the result of the dense [reciprocal_no_nan]
    has the length of the input, and it has a NaN at exactly the positions
    where the input has one: the function produces no NaN of its own. *)
Theorem reciprocal_no_nan_makes_no_nan (x : list fval) :
  length (reciprocal_no_nan x) = length x /\
  (forall j : nat, reciprocal_no_nan x !! j = Some NaN <-> x !! j = Some NaN).
Proof.
  split; [apply reciprocal_no_nan_length|].
  rewrite reciprocal_no_nan_map.
  intros j. change (map ?f ?l) with (f <$> l). rewrite list_lookup_fmap.
  destruct (x !! j) as [v|]; simpl; [|done].
  split; intros [= H]; f_equal; by apply safe_reciprocal_nan.
Qed.

(** ** The sparse [reciprocal_no_nan]: canonical format and the values held *)

Definition sorted_entries (l : list ((nat * nat) * fval)) : Prop :=
  StronglySorted (fun e e' => coord_ltb e.1 e'.1 = true) l.

Lemma coord_ltb_lt k k' :
  coord_ltb k k' = true <->
  (k.1 < k'.1)%nat \/ (k.1 = k'.1 /\ (k.2 < k'.2)%nat).
Proof.
  unfold coord_ltb.
  rewrite orb_true_iff, andb_true_iff, !Nat.ltb_lt, Nat.eqb_eq. tauto.
Qed.

Lemma coord_ltb_trans k1 k2 k3 :
  coord_ltb k1 k2 = true -> coord_ltb k2 k3 = true -> coord_ltb k1 k3 = true.
Proof. rewrite !coord_ltb_lt. lia. Qed.

Lemma coord_ltb_total k k' :
  k <> k' -> coord_ltb k k' = false -> coord_ltb k' k = true.
Proof.
  intros Hne Hlt. apply coord_ltb_lt.
  assert (H : ~ ((k.1 < k'.1)%nat \/ (k.1 = k'.1 /\ (k.2 < k'.2)%nat))).
  { rewrite <- coord_ltb_lt. by rewrite Hlt. }
  destruct k as [r c], k' as [r' c']; simpl in *.
  assert (r <> r' \/ c <> c') by (destruct (decide (r = r')); [right; congruence|by left]).
  lia.
Qed.

Lemma insert_sum_sorted k v l :
  sorted_entries l -> sorted_entries (insert_sum k v l).
Proof.
  unfold sorted_entries.
  induction l as [|[k0 v0] l IH]; simpl; intros Hs.
  - repeat constructor.
  - apply StronglySorted_cons in Hs as [Hall Hs].
    case_bool_decide as Hk.
    + apply StronglySorted_cons. split; [exact Hall|exact Hs].
    + destruct (coord_ltb k k0) eqn:Hlt.
      * apply StronglySorted_cons. split.
        -- constructor; [exact Hlt|].
           eapply Forall_impl; [exact Hall|]. simpl. intros e He.
           by eapply coord_ltb_trans.
        -- apply StronglySorted_cons. by split.
      * apply StronglySorted_cons. split; [|by apply IH].
        apply Forall_forall. intros e He. simpl.
        assert (Hin : e.1 ∈ (insert_sum k v l).*1)
          by (apply list_elem_of_fmap; eauto).
        apply insert_sum_coords in Hin as [->|Hin].
        -- apply coord_ltb_total; [congruence|exact Hlt].
        -- apply list_elem_of_fmap in Hin as (e' & -> & He').
           rewrite Forall_forall in Hall. by apply (Hall e').
Qed.

Lemma foldl_insert_sum_sorted es : forall acc,
  sorted_entries acc ->
  sorted_entries (foldl (fun acc e => insert_sum e.1 e.2 acc) acc es).
Proof.
  induction es as [|e es IH]; intros acc Hacc; simpl; [exact Hacc|].
  apply IH. by apply insert_sum_sorted.
Qed.

Lemma sum_duplicates_sorted m : canonical (sum_duplicates m).
Proof.
  unfold canonical, sum_duplicates. simpl.
  apply (foldl_insert_sum_sorted (sp_entries m) []). constructor.
Qed.

Lemma sorted_entries_NoDup l : sorted_entries l -> NoDup l.*1.
Proof.
  unfold sorted_entries. induction 1 as [|e l Hs IH Hall]; simpl.
  - constructor.
  - constructor; [|exact IH].
    intros Hin. apply list_elem_of_fmap in Hin as (e' & Heq & He').
    rewrite Forall_forall in Hall. specialize (Hall e' He').
    rewrite Heq in Hall. apply coord_ltb_asym in Hall as [_ Hne]. done.
Qed.

Lemma insert_sum_length k v l : (length (insert_sum k v l) <= S (length l))%nat.
Proof.
  induction l as [|[k0 v0] l IH]; simpl; [lia|].
  case_bool_decide; simpl; [lia|].
  destruct (coord_ltb k k0); simpl; lia.
Qed.

Lemma foldl_insert_sum_length es : forall acc,
  (length (foldl (fun acc e => insert_sum e.1 e.2 acc) acc es)
   <= length acc + length es)%nat.
Proof.
  induction es as [|e es IH]; intros acc; simpl; [lia|].
  specialize (IH (insert_sum e.1 e.2 acc)).
  pose proof (insert_sum_length e.1 e.2 acc). lia.
Qed.

(** The entries of the sparse result: those of the deduplicated input, each
    value transformed. *)
Lemma with_data_map (m : spmatrix) (f : fval -> fval) :
  sp_entries (with_data m (map f (sp_data m)))
  = map (fun e => (e.1, f e.2)) (sp_entries m).
Proof.
  destruct m as [sh l]. unfold with_data, sp_coords, sp_data. simpl.
  induction l as [|[k v] l IH]; simpl; [reflexivity|].
  f_equal. exact IH.
Qed.

Lemma sorted_entries_map (f : fval -> fval) l :
  sorted_entries l -> sorted_entries (map (fun e => (e.1, f e.2)) l).
Proof.
  unfold sorted_entries. induction 1 as [|e l Hs IH Hall]; simpl.
  - constructor.
  - constructor; [exact IH|].
    apply Forall_forall. intros e' He'.
    apply list_elem_of_In, in_map_iff in He' as (e0 & <- & He0). simpl.
    rewrite Forall_forall in Hall. apply Hall. by apply list_elem_of_In.
Qed.

(** X11. Whatever the format of the input, the sparse [reciprocal_no_nan]
    leaves it, and returns its result, in canonical format: coordinates
    strictly increasing (by row, then by column), none stored twice, and no
    more entries than the input had; deduplicating again changes
    nothing. *)
Theorem reciprocal_no_nan_sparse_canonical (x : spmatrix) :
  canonical (fst (reciprocal_no_nan_sparse x)) /\
  canonical (snd (reciprocal_no_nan_sparse x)) /\
  NoDup (sp_coords (snd (reciprocal_no_nan_sparse x))) /\
  (length (sp_entries (snd (reciprocal_no_nan_sparse x)))
   <= length (sp_entries x))%nat /\
  sum_duplicates (fst (reciprocal_no_nan_sparse x))
  = fst (reciprocal_no_nan_sparse x).
Proof.
  unfold reciprocal_no_nan_sparse. cbn [fst snd].
  pose proof (sum_duplicates_sorted x) as Hs.
  assert (Hout : sp_entries (with_data (sum_duplicates x)
                   (reciprocal_no_nan (sp_data (sum_duplicates x))))
                 = map (fun e => (e.1, safe_reciprocal e.2))
                     (sp_entries (sum_duplicates x))).
  { rewrite reciprocal_no_nan_map. apply with_data_map. }
  assert (Hc : canonical (with_data (sum_duplicates x)
                 (reciprocal_no_nan (sp_data (sum_duplicates x))))).
  { unfold canonical. rewrite Hout. by apply sorted_entries_map. }
  split; [exact Hs|]. split; [exact Hc|].
  split; [by apply sorted_entries_NoDup|].
  split.
  - rewrite Hout, length_map. unfold sum_duplicates. simpl.
    apply (foldl_insert_sum_length (sp_entries x) []).
  - by apply sum_duplicates_canonical.
Qed.

(** The entry stored first for a coordinate. *)
Fixpoint entry_at (k : nat * nat) (l : list ((nat * nat) * fval)) : option fval :=
  match l with
  | [] => None
  | (k', v) :: l' => if bool_decide (k' = k) then Some v else entry_at k l'
  end.

(** The entry of the matrix a sparse matrix stands for, as [toarray] gives
    it: the stored values of the coordinate added up, [0] if there are
    none. *)
Definition sp_get (m : spmatrix) (k : nat * nat) : fval :=
  foldl (fun acc e => if bool_decide (e.1 = k) then fadd acc e.2 else acc)
    (Fin 0) (sp_entries m).

Lemma fadd_0_l v : fadd (Fin 0) v = v.
Proof. destruct v as [q| | |]; simpl; try done. by rewrite Qcplus_0_l. Qed.

Lemma entry_at_None k l : k ∉ l.*1 -> entry_at k l = None.
Proof.
  induction l as [|[k0 v0] l IH]; simpl; [done|].
  intros Hk. apply not_elem_of_cons in Hk as [Hne Hk].
  rewrite bool_decide_eq_false_2 by congruence. by apply IH.
Qed.

Lemma entry_at_insert_sum k k' v l :
  sorted_entries l ->
  entry_at k (insert_sum k' v l)
  = if bool_decide (k' = k)
    then Some (match entry_at k l with Some v0 => fadd v0 v | None => v end)
    else entry_at k l.
Proof.
  unfold sorted_entries.
  induction l as [|[k0 v0] l IH]; intros Hs.
  - reflexivity.
  - apply StronglySorted_cons in Hs as [Hall Hs].
    cbn [insert_sum].
    destruct (decide (k' = k0)) as [->|Hk0].
    + rewrite (bool_decide_eq_true_2 (k0 = k0)) by done.
      cbn [entry_at]. by destruct (bool_decide (k0 = k)).
    + rewrite (bool_decide_eq_false_2 (k' = k0)) by done.
      destruct (coord_ltb k' k0) eqn:Hlt.
      * cbn [entry_at].
        destruct (decide (k' = k)) as [<-|Hk].
        -- rewrite (bool_decide_eq_true_2 (k' = k')) by done.
           rewrite (bool_decide_eq_false_2 (k0 = k')) by congruence.
           rewrite entry_at_None; [done|].
           intros Hin. apply list_elem_of_fmap in Hin as (e & Heq & He).
           rewrite Forall_forall in Hall. specialize (Hall e He). simpl in Hall.
           rewrite <- Heq in Hall.
           pose proof (coord_ltb_trans _ _ _ Hlt Hall) as Hkk.
           apply coord_ltb_asym in Hkk as [_ Hne]. done.
        -- by rewrite (bool_decide_eq_false_2 (k' = k)) by done.
      * cbn [entry_at]. rewrite IH by done.
        destruct (decide (k0 = k)) as [<-|Hk].
        -- rewrite (bool_decide_eq_true_2 (k0 = k0)) by done.
           by rewrite (bool_decide_eq_false_2 (k' = k0)) by done.
        -- by rewrite (bool_decide_eq_false_2 (k0 = k)) by done.
Qed.

Lemma foldl_insert_sum_get k es : forall acc s,
  sorted_entries acc ->
  default (Fin 0) (entry_at k acc) = s ->
  default (Fin 0)
    (entry_at k (foldl (fun acc e => insert_sum e.1 e.2 acc) acc es))
  = foldl (fun acc e => if bool_decide (e.1 = k) then fadd acc e.2 else acc) s es.
Proof.
  induction es as [|[k' v] es IH]; intros acc s Hacc Hs; simpl; [exact Hs|].
  apply IH; [by apply insert_sum_sorted|].
  rewrite entry_at_insert_sum by done.
  case_bool_decide; [|exact Hs].
  destruct (entry_at k acc) as [v0|]; simpl in *.
  - by rewrite Hs.
  - rewrite <- Hs. by rewrite fadd_0_l.
Qed.

Lemma sp_get_sorted sh l k :
  sorted_entries l -> sp_get (SpMatrix sh l) k = default (Fin 0) (entry_at k l).
Proof.
  intros Hl. unfold sp_get. simpl.
  rewrite <- (foldl_insert_sum_get k l [] (Fin 0)); [|constructor|done].
  by rewrite (foldl_insert_sum_canonical l []).
Qed.

Lemma sp_get_sum_duplicates m k : sp_get (sum_duplicates m) k = sp_get m k.
Proof.
  unfold sum_duplicates. rewrite sp_get_sorted.
  - unfold sp_get. apply foldl_insert_sum_get; [constructor|done].
  - apply (foldl_insert_sum_sorted (sp_entries m) []). constructor.
Qed.

Lemma entry_at_map (f : fval -> fval) k l :
  entry_at k (map (fun e => (e.1, f e.2)) l) = f <$> entry_at k l.
Proof.
  induction l as [|[k0 v0] l IH]; simpl; [done|].
  case_bool_decide; [done|exact IH].
Qed.

Lemma reciprocal_no_nan_sparse_get (x : spmatrix) (k : nat * nat) :
  sp_get (snd (reciprocal_no_nan_sparse x)) k = safe_reciprocal (sp_get x k).
Proof.
  unfold reciprocal_no_nan_sparse. cbn [fst snd].
  pose proof (sum_duplicates_sorted x) as Hs. unfold canonical in Hs.
  rewrite <- (sp_get_sum_duplicates x k).
  destruct (sum_duplicates x) as [sh l] eqn:Hx. simpl in Hs.
  rewrite (sp_get_sorted sh l k Hs).
  unfold sp_get.
  rewrite reciprocal_no_nan_map, with_data_map. simpl.
  change (foldl _ (Fin 0) ?l') with (sp_get (SpMatrix sh l') k).
  rewrite sp_get_sorted by (by apply sorted_entries_map).
  rewrite entry_at_map.
  by destruct (entry_at k l).
Qed.


Example reciprocal_no_nan_example :
  reciprocal_no_nan [Fin 0; Fin 2; Fin (-2); PInf; NaN]
  = [Fin 0; Fin (1 / 2); Fin (- (1 / 2)); Fin 0; NaN] /\
  sp_entries (snd (reciprocal_no_nan_sparse
    (SpMatrix (2, 2)%nat
       [((1, 0)%nat, Fin 2); ((0, 1)%nat, Fin 1); ((0, 0)%nat, Fin 2);
        ((0, 0)%nat, Fin (-2)); ((1, 0)%nat, Fin 2)])))
  = [((0, 0)%nat, Fin 0); ((0, 1)%nat, Fin 1); ((1, 0)%nat, Fin (1 / (2 + 2)))].
Proof. split; vm_compute; reflexivity. Qed.

(** X12. The sparse and the dense [reciprocal_no_nan] agree: at every
    coordinate, the matrix the sparse result stands for holds the safe
    reciprocal of the entry of the matrix the input stands for (stored
    duplicates added up, [0] where nothing is stored); the in-place
    deduplication of the input does not change the matrix it stands for. *)
Theorem reciprocal_no_nan_sparse_dense (x : spmatrix) (k : nat * nat) :
  sp_get (snd (reciprocal_no_nan_sparse x)) k = safe_reciprocal (sp_get x k) /\
  sp_get (fst (reciprocal_no_nan_sparse x)) k = sp_get x k.
Proof.
  unfold reciprocal_no_nan_sparse. cbn [fst snd].
  split; [|apply sp_get_sum_duplicates].
  pose proof (sum_duplicates_sorted x) as Hs. unfold canonical in Hs.
  rewrite <- (sp_get_sum_duplicates x k).
  destruct (sum_duplicates x) as [sh l] eqn:Hx. simpl in Hs.
  rewrite (sp_get_sorted sh l k Hs).
  unfold sp_get.
  rewrite reciprocal_no_nan_map, with_data_map. simpl.
  change (foldl _ (Fin 0) ?l') with (sp_get (SpMatrix sh l') k).
  rewrite sp_get_sorted by (by apply sorted_entries_map).
  rewrite entry_at_map.
  by destruct (entry_at k l).
Qed.

Example reciprocal_no_nan_sparse_dense_example :
  sp_get (SpMatrix (2, 2)%nat
            [((0, 0)%nat, Fin 1); ((1, 1)%nat, Fin 2); ((0, 0)%nat, Fin 1)])
         (0, 0)%nat = Fin 2 /\
  sp_get (snd (reciprocal_no_nan_sparse (SpMatrix (2, 2)%nat
            [((0, 0)%nat, Fin 1); ((1, 1)%nat, Fin 2); ((0, 0)%nat, Fin 1)])))
         (0, 0)%nat = Fin (1 / 2).
Proof. split; vm_compute; reflexivity. Qed.

End Reciprocal.

(** * [set_value] (tensorflow backend) *)

Module SetValue.

(** A tensor of rank one is the list of its entries.  Tensors that are
    bound to a name live in the store; a TensorFlow operation returns a new
    tensor, allocated with [alloc].  [index] is a Python [int]. *)

(** A Python [int] that meets an int32 tensor in a comparison is converted
    to int32: an integer that fits 64 bits is taken modulo [2^32] into the
    range of the dtype.  (The properties below are stated for such
    integers.) *)
Definition to_int32 (z : Z) : Z := wrap 32 z.

Section set_value.
Context {A : Type}.

(** [tf.range(n)], an int32 tensor. *)
Definition tf_range (n : nat) : list Z := seqZ 0 (Z.of_nat n).

(** [r == index] for an int32 tensor [r] and a Python [int]. *)
Definition tf_equal (r : list Z) (index : Z) : list bool :=
  map (fun j => bool_decide (j = to_int32 index)) r.

(** [tf.where(cond, value, a)] for a scalar [value] and a tensor [a]. *)
Definition tf_where (cond : list bool) (value : A) (a : list A) : list A :=
  zip_with (fun (c : bool) x => if c then value else x) cond a.

(** The entries of the tensor [set_value] builds. *)
Definition set_value_entries (a : list A) (index : Z) (value : A) : list A :=
  tf_where (tf_equal (tf_range (length a)) index) value a.

(** tensorflow/extras.py, [set_value]: the parameter [a] refers to a tensor
    of the store; the result of [tf.where] is a new tensor, to which the
    local name [a] is rebound and which is returned.  A reference to no
    tensor does not occur in Python; the model returns [None] for it. *)
Definition set_value (σ : gmap loc (list A)) (a : loc) (index : Z) (value : A)
    : option (gmap loc (list A) * loc) :=
  t ← σ !! a;
  Some (alloc (set_value_entries t index value) σ).

Lemma tf_range_lookup n (j : nat) :
  (j < n)%nat -> tf_range n !! j = Some (Z.of_nat j).
Proof.
  intros Hj. unfold tf_range. rewrite lookup_seqZ. split; lia.
Qed.

Lemma set_value_entries_length a index value :
  length (set_value_entries a index value) = length a.
Proof.
  unfold set_value_entries, tf_where, tf_equal, tf_range.
  rewrite length_zip_with, length_map, length_seqZ. lia.
Qed.

Lemma set_value_entries_lookup a index value (j : nat) x :
  a !! j = Some x ->
  set_value_entries a index value !! j
  = Some (if bool_decide (Z.of_nat j = to_int32 index) then value else x).
Proof.
  intros Hj. unfold set_value_entries, tf_where, tf_equal.
  change (map ?f ?l) with (f <$> l).
  rewrite lookup_zip_with, list_lookup_fmap.
  rewrite tf_range_lookup by (by eapply lookup_lt_Some).
  simpl. rewrite Hj. reflexivity.
Qed.

Lemma to_int32_id (z : Z) : in_range 32 z -> to_int32 z = z.
Proof. apply wrap_id. lia. Qed.

(** At a position the wrapped index names, the result is the list update
    of [a]; when it names none, the result is a copy of [a]. *)
Lemma set_value_entries_at (a : list A) index value :
  (0 <= to_int32 index < Z.of_nat (length a))%Z ->
  set_value_entries a index value = <[Z.to_nat (to_int32 index) := value]> a.
Proof.
  intros Hi. apply list_eq. intros j.
  destruct (a !! j) as [x|] eqn:Hj.
  - rewrite (set_value_entries_lookup _ _ _ _ _ Hj).
    case_bool_decide as Hd.
    + rewrite <- Hd. rewrite Nat2Z.id. symmetry.
      apply list_lookup_insert_eq. by eapply lookup_lt_Some.
    + rewrite list_lookup_insert_ne by lia. by rewrite Hj.
  - apply lookup_ge_None in Hj.
    rewrite !(proj2 (lookup_ge_None _ _)); [done| |].
    + by rewrite length_insert.
    + by rewrite set_value_entries_length.
Qed.

Lemma set_value_entries_in_range (a : list A) index value :
  (0 <= index < Z.of_nat (length a))%Z ->
  (Z.of_nat (length a) <= 2 ^ 31)%Z ->
  set_value_entries a index value = <[Z.to_nat index := value]> a.
Proof.
  intros Hi Hlen.
  assert (Hid : to_int32 index = index).
  { apply to_int32_id. unfold in_range. change (32 - 1)%Z with 31%Z. lia. }
  rewrite set_value_entries_at; rewrite Hid; [done|lia].
Qed.

Lemma set_value_entries_out_of_range (a : list A) index value :
  (to_int32 index < 0 \/ Z.of_nat (length a) <= to_int32 index)%Z ->
  set_value_entries a index value = a.
Proof.
  intros Hi. apply list_eq. intros j.
  destruct (a !! j) as [x|] eqn:Hj.
  - rewrite (set_value_entries_lookup _ _ _ _ _ Hj).
    apply lookup_lt_Some in Hj.
    rewrite bool_decide_eq_false_2 by lia. done.
  - apply lookup_ge_None in Hj. apply lookup_ge_None.
    by rewrite set_value_entries_length.
Qed.

End set_value.

(** C5. What [set_value(a, i, v)] does on a tensor of rank one, for an
    index that fits 64 bits.  It leaves the tensor [a] refers to, and
    every other tensor of the store, as they are, and returns a tensor that
    did not exist before, of the length of [a].  The entry at position [j]
    is [v] when [j] equals [i] converted to int32, and that of [a]
    otherwise.  So for an index that is an int32 the entry at position [i]
    is [v] and every other entry is that of [a]; but the index [2^32 + 1],
    which is no position of a tensor of length three, sets position [1]. *)
Theorem set_value_new_tensor :
  (forall (A : Type) (σ : gmap loc (list A)) (a : loc) (t : list A)
          (index : Z) (value : A),
     σ !! a = Some t ->
     in_range 64 index ->
     exists σ' r t',
       set_value σ a index value = Some (σ', r) /\
       σ' !! a = Some t /\
       (forall l, is_Some (σ !! l) -> σ' !! l = σ !! l) /\
       σ !! r = None /\ r <> a /\
       σ' !! r = Some t' /\
       length t' = length t /\
       (forall (j : nat) x, t !! j = Some x ->
          t' !! j
          = Some (if bool_decide (Z.of_nat j = to_int32 index) then value else x)) /\
       (in_range 32 index ->
        forall (j : nat) x, t !! j = Some x ->
          t' !! j = Some (if bool_decide (Z.of_nat j = index) then value else x)) /\
       ((0 <= index < Z.of_nat (length t))%Z ->
        (Z.of_nat (length t) <= 2 ^ 31)%Z ->
        t' = <[Z.to_nat index := value]> t)) /\
  to_int32 4294967297 = 1%Z /\
  set_value_entries [10; 20; 30]%Z 4294967297 99%Z = [10; 99; 30]%Z.
Proof.
  split; [|split; vm_compute; reflexivity].
  intros A σ a t index value Ha _.
  exists (alloc (set_value_entries t index value) σ).1,
         (alloc (set_value_entries t index value) σ).2,
         (set_value_entries t index value).
  split.
  { unfold set_value. rewrite Ha. reflexivity. }
  split.
  { rewrite alloc_lookup_old by eauto. done. }
  split.
  { intros l Hl. by apply alloc_lookup_old. }
  split; [apply alloc_fresh|].
  split; [apply alloc_ne_old; eauto|].
  split; [apply alloc_lookup_new|].
  split; [apply set_value_entries_length|].
  split; [intros j x Hj; by apply set_value_entries_lookup|].
  split.
  { intros Hr j x Hj. rewrite (set_value_entries_lookup _ _ _ _ _ Hj).
    by rewrite (to_int32_id index Hr). }
  apply set_value_entries_in_range.
Qed.

Lemma set_value_new_tensor_witness :
  exists σ' r,
    set_value ({[ 0%nat := [10; 20; 30]%Z ]} : gmap loc (list Z)) 0%nat
      4294967297%Z 99%Z
    = Some (σ', r) /\
    σ' !! 0%nat = Some [10; 20; 30]%Z /\
    r <> 0%nat /\
    σ' !! r = Some [10; 99; 30]%Z.
Proof.
  destruct (proj1 set_value_new_tensor Z {[ 0%nat := [10; 20; 30]%Z ]} 0%nat
              [10; 20; 30]%Z 4294967297%Z 99%Z)
    as (σ' & r & t' & Hs & Ha & _ & _ & Hne & Hr & Hlen & Hj & _);
    [reflexivity|unfold in_range; simpl; lia|].
  exists σ', r. split; [exact Hs|]. split; [exact Ha|]. split; [exact Hne|].
  rewrite Hr. f_equal.
  apply list_eq. intros [|[|[|j]]].
  - by rewrite (Hj 0%nat 10%Z eq_refl).
  - by rewrite (Hj 1%nat 20%Z eq_refl).
  - by rewrite (Hj 2%nat 30%Z eq_refl).
  - rewrite !(proj2 (lookup_ge_None _ _)); [done|simpl; lia|].
    rewrite Hlen. simpl. lia.
Defined.

Example set_value_example :
  set_value_entries [10; 20; 30]%Z 1 99%Z = [10; 99; 30]%Z /\
  set_value_entries [10; 20; 30]%Z (-1) 99%Z = [10; 20; 30]%Z /\
  set_value_entries [10; 20; 30]%Z 3 99%Z = [10; 20; 30]%Z /\
  set_value_entries [10; 20; 30]%Z (2 ^ 32 + 1) 99%Z = [10; 99; 30]%Z.
Proof. repeat split; vm_compute; reflexivity. Qed.

(** ** How calls of [set_value] compose *)

Section set_value_algebra.
Context {A : Type}.

Lemma set_value_entries_lookup_fmap (t : list A) index value (j : nat) :
  set_value_entries t index value !! j
  = (fun x => if bool_decide (Z.of_nat j = to_int32 index) then value else x)
      <$> t !! j.
Proof.
  destruct (t !! j) as [x|] eqn:Hj; simpl.
  - by apply set_value_entries_lookup.
  - apply lookup_ge_None. rewrite set_value_entries_length.
    by apply lookup_ge_None.
Qed.

Lemma set_value_entries_overwrite (t : list A) index v w :
  set_value_entries (set_value_entries t index v) index w
  = set_value_entries t index w.
Proof.
  apply list_eq. intros j. rewrite !set_value_entries_lookup_fmap.
  destruct (t !! j); simpl; [|done]. by case_bool_decide.
Qed.

Lemma set_value_entries_commute (t : list A) i j v w :
  to_int32 i <> to_int32 j ->
  set_value_entries (set_value_entries t i v) j w
  = set_value_entries (set_value_entries t j w) i v.
Proof.
  intros Hij. apply list_eq. intros k. rewrite !set_value_entries_lookup_fmap.
  destruct (t !! k); simpl; [|done].
  repeat case_bool_decide; try done. congruence.
Qed.

(** What one call does to the store. *)
Lemma set_value_result (σ : gmap loc (list A)) (a : loc) (t : list A)
    (index : Z) (value : A) :
  σ !! a = Some t ->
  exists σ' r,
    set_value σ a index value = Some (σ', r) /\
    σ' !! r = Some (set_value_entries t index value) /\
    (forall l, is_Some (σ !! l) -> σ' !! l = σ !! l).
Proof.
  intros Ha.
  exists (alloc (set_value_entries t index value) σ).1,
         (alloc (set_value_entries t index value) σ).2.
  split; [unfold set_value; by rewrite Ha|].
  split; [apply alloc_lookup_new|].
  intros l Hl. by apply alloc_lookup_old.
Qed.

(** X4. An index (that fits 64 bits) which, converted to int32, lies
    outside [0, len(a)) raises nothing and is not counted from the end:
    [set_value] returns a new tensor with the entries of [a], all
    unchanged.  This is the case of every int32 index that is negative or
    at least [len(a)]. *)
Theorem set_value_index_out_of_range (σ : gmap loc (list A)) (a : loc)
    (t : list A) (index : Z) (value : A) :
  σ !! a = Some t ->
  in_range 64 index ->
  (to_int32 index < 0 \/ Z.of_nat (length t) <= to_int32 index)%Z \/
  (in_range 32 index /\ (index < 0 \/ Z.of_nat (length t) <= index)%Z) ->
  exists σ' r,
    set_value σ a index value = Some (σ', r) /\
    σ' !! r = Some t /\
    σ' !! a = Some t.
Proof.
  intros Ha _ Hi.
  assert (Hw : (to_int32 index < 0 \/ Z.of_nat (length t) <= to_int32 index)%Z).
  { destruct Hi as [Hi|[Hr Hi]]; [exact Hi|]. by rewrite to_int32_id. }
  destruct (set_value_result σ a t index value Ha) as (σ' & r & Hs & Hr & Hold).
  exists σ', r. split; [exact Hs|].
  split.
  - by rewrite Hr, set_value_entries_out_of_range.
  - rewrite Hold by eauto. exact Ha.
Qed.


(** X6. Setting two indices (that fit 64 bits) which differ as int32
    values gives the same entries in either order.  (Two indices that
    differ by a multiple of [2^32] name the same position, and the later
    call wins.) *)
Theorem set_value_different_indices_commute (σ : gmap loc (list A)) (a : loc)
    (t : list A) (i j : Z) (v w : A) :
  σ !! a = Some t ->
  in_range 64 i -> in_range 64 j ->
  to_int32 i <> to_int32 j ->
  exists σ1 r1 σ2 r2 τ1 s1 τ2 s2 t',
    set_value σ a i v = Some (σ1, r1) /\
    set_value σ1 r1 j w = Some (σ2, r2) /\
    set_value σ a j w = Some (τ1, s1) /\
    set_value τ1 s1 i v = Some (τ2, s2) /\
    σ2 !! r2 = Some t' /\
    τ2 !! s2 = Some t' /\
    (forall (k : nat) x, t !! k = Some x ->
       t' !! k = Some (if bool_decide (Z.of_nat k = to_int32 i) then v
                       else if bool_decide (Z.of_nat k = to_int32 j) then w
                       else x)).
Proof.
  intros Ha _ _ Hij.
  destruct (set_value_result σ a t i v Ha) as (σ1 & r1 & Hs1 & Hr1 & _).
  destruct (set_value_result σ1 r1 _ j w Hr1) as (σ2 & r2 & Hs2 & Hr2 & _).
  destruct (set_value_result σ a t j w Ha) as (τ1 & s1 & Ht1 & Hq1 & _).
  destruct (set_value_result τ1 s1 _ i v Hq1) as (τ2 & s2 & Ht2 & Hq2 & _).
  exists σ1, r1, σ2, r2, τ1, s1, τ2, s2,
         (set_value_entries (set_value_entries t j w) i v).
  split; [exact Hs1|]. split; [exact Hs2|].
  split; [exact Ht1|]. split; [exact Ht2|].
  split; [by rewrite Hr2, set_value_entries_commute|].
  split; [exact Hq2|].
  intros k x Hk. rewrite !set_value_entries_lookup_fmap, Hk. reflexivity.
Qed.

End set_value_algebra.

Lemma set_value_index_out_of_range_witness :
  exists σ' r,
    set_value ({[ 0%nat := [10; 20; 30]%Z ]} : gmap loc (list Z)) 0%nat (-1)%Z 99%Z
    = Some (σ', r) /\
    σ' !! r = Some [10; 20; 30]%Z /\
    σ' !! 0%nat = Some [10; 20; 30]%Z.
Proof.
  apply (set_value_index_out_of_range {[ 0%nat := [10; 20; 30]%Z ]} 0%nat
           [10; 20; 30]%Z (-1)%Z 99%Z).
  - reflexivity.
  - unfold in_range; simpl; lia.
  - left. left. vm_compute. reflexivity.
Defined.


Lemma set_value_different_indices_commute_witness :
  exists σ1 r1 σ2 r2 τ1 s1 τ2 s2 t',
    set_value ({[ 0%nat := [10; 20; 30]%Z ]} : gmap loc (list Z)) 0%nat 0%Z 7%Z
    = Some (σ1, r1) /\
    set_value σ1 r1 2%Z 8%Z = Some (σ2, r2) /\
    set_value ({[ 0%nat := [10; 20; 30]%Z ]} : gmap loc (list Z)) 0%nat 2%Z 8%Z
    = Some (τ1, s1) /\
    set_value τ1 s1 0%Z 7%Z = Some (τ2, s2) /\
    σ2 !! r2 = Some t' /\
    τ2 !! s2 = Some t' /\
    (forall (k : nat) x, [10; 20; 30]%Z !! k = Some x ->
       t' !! k = Some (if bool_decide (Z.of_nat k = to_int32 0%Z) then 7%Z
                       else if bool_decide (Z.of_nat k = to_int32 2%Z) then 8%Z
                       else x)).
Proof.
  apply (set_value_different_indices_commute {[ 0%nat := [10; 20; 30]%Z ]}
           0%nat [10; 20; 30]%Z 0%Z 2%Z 7%Z 8%Z).
  - reflexivity.
  - unfold in_range; simpl; lia.
  - unfold in_range; simpl; lia.
  - vm_compute. discriminate.
Defined.

End SetValue.

(** * Random state: [get_random_state], [restore_random_state] *)

Module RandomState.

(** ** numpy: [np.random.RandomState]

    A generator is an object of the store holding its state; a draw reads
    the state, returns a sample and writes the next state.  The step of the
    underlying bit generator is a parameter. *)
Section numpy.
Context {St : Type} (next : St -> Z * St).

(** [n] successive samples from a state, and the state after them. *)
Fixpoint draws (n : nat) (s : St) : list Z * St :=
  match n with
  | O => ([], s)
  | S n' =>
      let (v, s1) := next s in
      let (vs, s2) := draws n' s1 in
      (v :: vs, s2)
  end.

(** One draw from the generator object [g]. *)
Definition gen_draw (σ : gmap loc St) (g : loc) : option (Z * gmap loc St) :=
  s ← σ !! g;
  let (v, s') := next s in
  Some (v, <[g := s']> σ).

(** [n] draws from the generator object [g]. *)
Fixpoint gen_draws (n : nat) (σ : gmap loc St) (g : loc)
    : option (list Z * gmap loc St) :=
  match n with
  | O => Some ([], σ)
  | S n' =>
      '(v, σ1) ← gen_draw σ g;
      '(vs, σ2) ← gen_draws n' σ1 g;
      Some (v :: vs, σ2)
  end.

(** [key.get_state()]: a copy of the state. *)
Definition get_state (σ : gmap loc St) (key : loc) : option St := σ !! key.

(** [gen.set_state(state)]. *)
Definition set_state (σ : gmap loc St) (gen : loc) (state : St) : gmap loc St :=
  <[gen := state]> σ.

(** [np.random.RandomState()]: a new generator, seeded with what the
    operating system's entropy source gives, [entropy]. *)
Definition new_RandomState (entropy : St) (σ : gmap loc St) : gmap loc St * loc :=
  alloc entropy σ.

(** numpy/extras.py, [get_random_state]. *)
Definition get_random_state (σ : gmap loc St) (key : loc) : option St :=
  get_state σ key.

(** numpy/extras.py, [restore_random_state]; [key] is not used. *)
Definition restore_random_state (entropy : St) (σ : gmap loc St)
    (key : loc) (state : St) : gmap loc St * loc :=
  let (σ1, gen) := new_RandomState entropy σ in
  let σ2 := set_state σ1 gen state in
  (σ2, gen).

Lemma gen_draws_spec n : forall (σ : gmap loc St) g s,
  σ !! g = Some s ->
  gen_draws n σ g = Some ((draws n s).1, <[g := (draws n s).2]> σ).
Proof.
  induction n as [|n IH]; intros σ g s Hg; simpl.
  - by rewrite insert_id.
  - unfold gen_draw. rewrite Hg. simpl.
    destruct (next s) as [v s1]. simpl.
    rewrite (IH _ g s1) by apply lookup_insert_eq.
    simpl. destruct (draws n s1) as [vs s2]. simpl.
    by rewrite insert_insert_eq.
Qed.

Lemma restore_random_state_fresh entropy (σ : gmap loc St) key state :
  σ !! (restore_random_state entropy σ key state).2 = None.
Proof. apply (alloc_fresh entropy σ). Qed.

Lemma restore_random_state_new entropy (σ : gmap loc St) key state :
  (restore_random_state entropy σ key state).1
    !! (restore_random_state entropy σ key state).2 = Some state.
Proof. apply lookup_insert_eq. Qed.

Lemma restore_random_state_old entropy (σ : gmap loc St) key state l :
  is_Some (σ !! l) ->
  (restore_random_state entropy σ key state).1 !! l = σ !! l.
Proof.
  intros Hl.
  pose proof (alloc_ne_old entropy σ l Hl) as Hne.
  pose proof (alloc_lookup_old entropy σ l Hl) as Hold.
  unfold restore_random_state, new_RandomState, set_state, alloc in *.
  simpl in *. by rewrite lookup_insert_ne.
Qed.

End numpy.

(** ** tensorflow: [tf.random.Generator]

    A generator holds a reference to the variable that stores its state,
    and its algorithm; a draw updates the variable. *)
Inductive algorithm := Philox | ThreeFry.

Record generator := Generator { state_var : loc; alg : algorithm }.

Section tensorflow.
Context {St : Type} (tf_next : algorithm -> St -> Z * St).

(** What is given as a state: a variable of the store, or the value of a
    tensor. *)
Inductive tf_state := StateVariable (var : loc) | StateTensor (s : St).

(** [n] draws from the generator [g]. *)
Definition tf_gen_draws (n : nat) (σ : gmap loc St) (g : generator)
    : option (list Z * gmap loc St) :=
  gen_draws (tf_next (alg g)) n σ (state_var g).

(** tensorflow/extras.py, [get_random_state]: the pair of [key.state], the
    variable itself, and [key.algorithm]. *)
Definition tf_get_random_state (key : generator) : tf_state * algorithm :=
  (StateVariable (state_var key), alg key).

(** [tf.random.Generator.from_state(state, alg)]: a new generator.  A
    variable given as [state] becomes the state variable of the generator,
    as it is; for the value of a tensor a new variable is created. *)
Definition from_state (σ : gmap loc St) (state : tf_state) (a : algorithm)
    : option (gmap loc St * generator) :=
  match state with
  | StateVariable var => _ ← σ !! var; Some (σ, Generator var a)
  | StateTensor s => let (σ1, var) := alloc s σ in Some (σ1, Generator var a)
  end.

(** tensorflow/extras.py, [restore_random_state]; [key] is not used. *)
Definition tf_restore_random_state (σ : gmap loc St) (key : generator)
    (state : tf_state * algorithm) : option (gmap loc St * generator) :=
  from_state σ state.1 state.2.

End tensorflow.

Arguments StateVariable {St} var.
Arguments StateTensor {St} s.

Section round_trip.
Context {St : Type} (next : St -> Z * St) (tf_next : algorithm -> St -> Z * St).

(** C7. numpy: a generator whose state [s] is captured with
    [get_random_state] and given to [restore_random_state] yields a second
    generator, a new object, whose next [n] draws are the next [n] draws of
    the first: both give the samples [draws n s], also when the second
    generator draws first and the original one after it.
    tensorflow: [get_random_state] returns the state variable of the
    generator, not a copy of its value, and the generator
    [restore_random_state] makes of it has that same variable as its state.
    Its [n] draws are the samples [draws n s] the original would have
    drawn, but they advance the state of the original as well: the [n]
    draws the original makes afterwards are the samples that follow in the
    stream, not the same ones. *)
Theorem random_state_round_trip (n : nat) (s entropy : St)
    (σ : gmap loc St) (key : loc) (τ : gmap loc St) (tkey : generator) :
  σ !! key = Some s ->
  τ !! state_var tkey = Some s ->
  (exists σ' gen σ1 σ2,
      get_random_state σ key = Some s /\
      restore_random_state entropy σ key s = (σ', gen) /\
      gen <> key /\
      fst <$> gen_draws next n σ' key = Some (draws next n s).1 /\
      gen_draws next n σ' gen = Some ((draws next n s).1, σ1) /\
      gen_draws next n σ1 key = Some ((draws next n s).1, σ2)) /\
  (exists gen τ1 τ2,
      tf_restore_random_state τ tkey (tf_get_random_state tkey) = Some (τ, gen) /\
      state_var gen = state_var tkey /\
      alg gen = alg tkey /\
      fst <$> tf_gen_draws tf_next n τ tkey
      = Some (draws (tf_next (alg tkey)) n s).1 /\
      tf_gen_draws tf_next n τ gen
      = Some ((draws (tf_next (alg tkey)) n s).1, τ1) /\
      τ1 !! state_var tkey = Some (draws (tf_next (alg tkey)) n s).2 /\
      tf_gen_draws tf_next n τ1 tkey
      = Some ((draws (tf_next (alg tkey)) n
                 (draws (tf_next (alg tkey)) n s).2).1, τ2)).
Proof.
  intros Hkey Htkey. split.
  - pose proof (restore_random_state_new entropy σ key s) as Hnew.
    pose proof (restore_random_state_old entropy σ key s key (mk_is_Some _ _ Hkey)) as Hold.
    pose proof (alloc_ne_old entropy σ key (mk_is_Some _ _ Hkey)) as Hne.
    destruct (restore_random_state entropy σ key s) as [σ' gen] eqn:Hr.
    assert (Hgen : gen = (alloc entropy σ).2).
    { unfold restore_random_state, new_RandomState in Hr.
      destruct (alloc entropy σ). by inversion Hr. }
    simpl in Hnew, Hold. rewrite Hkey in Hold.
    eexists σ', gen, _, _.
    split; [exact Hkey|]. split; [reflexivity|].
    split; [by rewrite Hgen|].
    split; [by rewrite (gen_draws_spec next n σ' key s Hold)|].
    split; [by rewrite (gen_draws_spec next n σ' gen s Hnew)|].
    apply gen_draws_spec. rewrite lookup_insert_ne; [done|by rewrite Hgen].
  - eexists (Generator (state_var tkey) (alg tkey)), _, _.
    split.
    { unfold tf_restore_random_state, tf_get_random_state, from_state.
      simpl. rewrite Htkey. reflexivity. }
    split; [reflexivity|]. split; [reflexivity|].
    unfold tf_gen_draws. cbn [state_var alg].
    split; [by rewrite (gen_draws_spec _ n _ _ s Htkey)|].
    split; [by rewrite (gen_draws_spec _ n _ _ s Htkey)|].
    split; [apply lookup_insert_eq|].
    apply gen_draws_spec. apply lookup_insert_eq.
Qed.

(** C9. The numpy [restore_random_state(key, state)] returns a generator
    that did not exist before and carries [state]; the generator [key], and
    every other object of the store, is left as it was, so the draws of
    [key] after the call are those it would have made without it. *)
Theorem restore_random_state_frame (n : nat) (s state entropy : St)
    (σ : gmap loc St) (key : loc) :
  σ !! key = Some s ->
  let σ' := (restore_random_state entropy σ key state).1 in
  let gen := (restore_random_state entropy σ key state).2 in
  σ !! gen = None /\
  gen <> key /\
  σ' !! gen = Some state /\
  σ' !! key = Some s /\
  (forall l, is_Some (σ !! l) -> σ' !! l = σ !! l) /\
  fst <$> gen_draws next n σ' key = fst <$> gen_draws next n σ key /\
  fst <$> gen_draws next n σ' gen = Some (draws next n state).1.
Proof.
  intros Hkey σ' gen. subst σ' gen.
  pose proof (restore_random_state_old entropy σ key state key
                (mk_is_Some _ _ Hkey)) as Hold.
  rewrite Hkey in Hold.
  split; [apply restore_random_state_fresh|].
  split; [apply (alloc_ne_old entropy σ key); eauto|].
  split; [apply restore_random_state_new|].
  split; [exact Hold|].
  split; [intros l Hl; by apply restore_random_state_old|].
  split.
  - by rewrite (gen_draws_spec next n _ key s Hold),
               (gen_draws_spec next n σ key s Hkey).
  - by rewrite (gen_draws_spec next n _ _ state
                  (restore_random_state_new entropy σ key state)).
Qed.

End round_trip.

(** A small linear congruential generator, to run the model. *)
Definition lcg_next (s : Z) : Z * Z :=
  (s mod 256, (s * 1103515245 + 12345) mod 2147483648)%Z.

Definition lcg_tf_next (a : algorithm) (s : Z) : Z * Z :=
  match a with
  | Philox => lcg_next s
  | ThreeFry => lcg_next (s + 1)
  end.

Example lcg_draws : (draws lcg_next 3 42%Z).1 = [42; 27; 184]%Z.
Proof. reflexivity. Qed.

(** The samples of the model generator the two batches of three draws
    hold. *)
Example lcg_draws_continue :
  (draws lcg_next 3 (draws lcg_next 3 42%Z).2).1 = [145; 246; 247]%Z.
Proof. reflexivity. Qed.

Lemma random_state_round_trip_witness :
  ({[ 0%nat := 42%Z ]} : gmap loc Z) !! 0%nat = Some 42%Z /\
  (exists σ' gen σ1 σ2,
      get_random_state ({[ 0%nat := 42%Z ]} : gmap loc Z) 0%nat = Some 42%Z /\
      restore_random_state 7%Z ({[ 0%nat := 42%Z ]} : gmap loc Z) 0%nat 42%Z
      = (σ', gen) /\
      gen <> 0%nat /\
      fst <$> gen_draws lcg_next 3 σ' 0%nat = Some (draws lcg_next 3 42%Z).1 /\
      gen_draws lcg_next 3 σ' gen = Some ((draws lcg_next 3 42%Z).1, σ1) /\
      gen_draws lcg_next 3 σ1 0%nat = Some ((draws lcg_next 3 42%Z).1, σ2)) /\
  (exists gen τ1 τ2,
      tf_restore_random_state ({[ 0%nat := 42%Z ]} : gmap loc Z)
        (Generator 0 Philox) (tf_get_random_state (Generator 0 Philox))
      = Some ({[ 0%nat := 42%Z ]}, gen) /\
      state_var gen = 0%nat /\
      alg gen = Philox /\
      fst <$> tf_gen_draws lcg_tf_next 3 {[ 0%nat := 42%Z ]} (Generator 0 Philox)
      = Some (draws (lcg_tf_next Philox) 3 42%Z).1 /\
      tf_gen_draws lcg_tf_next 3 {[ 0%nat := 42%Z ]} gen
      = Some ((draws (lcg_tf_next Philox) 3 42%Z).1, τ1) /\
      τ1 !! 0%nat = Some (draws (lcg_tf_next Philox) 3 42%Z).2 /\
      tf_gen_draws lcg_tf_next 3 τ1 (Generator 0 Philox)
      = Some ((draws (lcg_tf_next Philox) 3
                 (draws (lcg_tf_next Philox) 3 42%Z).2).1, τ2)).
Proof.
  split; [reflexivity|].
  apply (random_state_round_trip lcg_next lcg_tf_next 3 42%Z 7%Z
           {[ 0%nat := 42%Z ]} 0%nat {[ 0%nat := 42%Z ]} (Generator 0 Philox));
    reflexivity.
Defined.

(** The run of the tensorflow functions on the model generator: the
    restored generator draws [42; 27; 184], and the original, drawing after
    it, draws the three samples that follow. *)
Example tf_round_trip_run :
  exists gen τ1 τ2,
    tf_restore_random_state ({[ 0%nat := 42%Z ]} : gmap loc Z)
      (Generator 0 Philox) (tf_get_random_state (Generator 0 Philox))
    = Some ({[ 0%nat := 42%Z ]}, gen) /\
    tf_gen_draws lcg_tf_next 3 {[ 0%nat := 42%Z ]} gen = Some ([42; 27; 184]%Z, τ1) /\
    tf_gen_draws lcg_tf_next 3 τ1 (Generator 0 Philox) = Some ([145; 246; 247]%Z, τ2).
Proof.
  eexists (Generator 0 Philox), _, _.
  split; [reflexivity|].
  unfold tf_gen_draws. cbn [state_var alg].
  split.
  - by rewrite (gen_draws_spec _ 3 _ _ 42%Z) by reflexivity.
  - by rewrite (gen_draws_spec _ 3 _ _ _ (lookup_insert_eq _ _ _)).
Qed.

Lemma restore_random_state_frame_witness :
  ({[ 0%nat := 42%Z ]} : gmap loc Z) !! 0%nat = Some 42%Z /\
  let σ' := (restore_random_state 7%Z ({[ 0%nat := 42%Z ]} : gmap loc Z) 0%nat 5%Z).1 in
  let gen := (restore_random_state 7%Z ({[ 0%nat := 42%Z ]} : gmap loc Z) 0%nat 5%Z).2 in
  ({[ 0%nat := 42%Z ]} : gmap loc Z) !! gen = None /\
  gen <> 0%nat /\
  σ' !! gen = Some 5%Z /\
  σ' !! 0%nat = Some 42%Z /\
  (forall l, is_Some (({[ 0%nat := 42%Z ]} : gmap loc Z) !! l) ->
     σ' !! l = ({[ 0%nat := 42%Z ]} : gmap loc Z) !! l) /\
  fst <$> gen_draws lcg_next 3 σ' 0%nat
  = fst <$> gen_draws lcg_next 3 ({[ 0%nat := 42%Z ]} : gmap loc Z) 0%nat /\
  fst <$> gen_draws lcg_next 3 σ' gen = Some (draws lcg_next 3 5%Z).1.
Proof.
  split; [reflexivity|].
  apply (restore_random_state_frame lcg_next 3 42%Z 5%Z 7%Z
           {[ 0%nat := 42%Z ]} 0%nat).
  reflexivity.
Defined.

(** ** A captured state and later draws of the original generator *)

Section snapshot.
Context {St : Type} (next : St -> Z * St).

(** X13. numpy: the state [get_random_state] returns is a copy.  After the
    original generator has drawn [m] samples, [restore_random_state] with
    the captured state still gives a generator that starts at the captured
    state: its first [m] draws repeat the [m] samples the original drew,
    while the original goes on from where it is. *)
Theorem numpy_state_is_a_snapshot (m n : nat) (s entropy : St)
    (σ : gmap loc St) (key : loc) :
  σ !! key = Some s ->
  exists vs σ1 σ2 gen,
    get_random_state σ key = Some s /\
    gen_draws next m σ key = Some (vs, σ1) /\
    restore_random_state entropy σ1 key s = (σ2, gen) /\
    gen <> key /\
    fst <$> gen_draws next m σ2 gen = Some vs /\
    fst <$> gen_draws next n σ2 key
    = Some (draws next n (draws next m s).2).1.
Proof.
  intros Hkey.
  pose proof (gen_draws_spec next m σ key s Hkey) as Hm.
  set (σ1 := <[key := (draws next m s).2]> σ) in *.
  assert (Hk1 : σ1 !! key = Some (draws next m s).2) by apply lookup_insert_eq.
  pose proof (restore_random_state_new entropy σ1 key s) as Hnew.
  pose proof (restore_random_state_old entropy σ1 key s key
                (mk_is_Some _ _ Hk1)) as Hold.
  pose proof (alloc_ne_old entropy σ1 key (mk_is_Some _ _ Hk1)) as Hne.
  rewrite Hk1 in Hold.
  exists (draws next m s).1, σ1,
         (restore_random_state entropy σ1 key s).1,
         (restore_random_state entropy σ1 key s).2.
  split; [exact Hkey|]. split; [exact Hm|].
  split; [by destruct (restore_random_state entropy σ1 key s)|].
  split; [exact Hne|].
  split.
  - by rewrite (gen_draws_spec next m _ _ s Hnew).
  - by rewrite (gen_draws_spec next n _ key _ Hold).
Qed.

End snapshot.

Lemma numpy_state_is_a_snapshot_witness :
  exists vs σ1 σ2 gen,
    get_random_state ({[ 0%nat := 42%Z ]} : gmap loc Z) 0%nat = Some 42%Z /\
    gen_draws lcg_next 2 ({[ 0%nat := 42%Z ]} : gmap loc Z) 0%nat = Some (vs, σ1) /\
    restore_random_state 7%Z σ1 0%nat 42%Z = (σ2, gen) /\
    gen <> 0%nat /\
    fst <$> gen_draws lcg_next 2 σ2 gen = Some vs /\
    fst <$> gen_draws lcg_next 3 σ2 0%nat
    = Some (draws lcg_next 3 (draws lcg_next 2 42%Z).2).1.
Proof.
  apply (numpy_state_is_a_snapshot lcg_next 2 3 42%Z 7%Z {[ 0%nat := 42%Z ]} 0%nat).
  reflexivity.
Defined.

End RandomState.

(** * The GPyTorch kernel wrapper *)

Module GPyTorch.

(** Hyperparameters, as the dictionary [init_params] returns and [forward]
    builds. *)
Record params := Params { p_lengthscale : fval; p_nu : fval }.

(** The calls the wrapper makes to the base kernel. *)
Inductive event := InitParamsCalled | KCalled | KDiagCalled.

#[global] Instance event_eq_dec : EqDecision event.
Proof. solve_decision. Defined.

(** A value given for a hyperparameter: a tensor, or a Python number. *)
Inductive pyvalue := TensorValue (v : fval) | PyFloat (v : fval).

(** [torch.as_tensor]. *)
Definition as_tensor (value : pyvalue) : fval :=
  match value with TensorValue v | PyFloat v => v end.

(** [torch.isinf] on a tensor. *)
Definition torch_isinf (v : fval) : bool :=
  match v with
  | PInf | NInf => true
  | _ => false
  end.

Section wrapper.
Context {X Mat : Type}.

(** The interface of [BaseGeometricKernel] the wrapper uses. *)
Record BaseGeometricKernel := {
  init_params : params;
  K : params -> X -> X -> Mat;
  K_diag : params -> X -> Mat
}.

(** [gpytorch.constraints.Positive]: the transform of the raw parameter,
    its inverse, and the check that a transformed value is within the
    bounds of the constraint. *)
Context (transform inverse_transform : fval -> fval) (check : fval -> bool).

(** The attributes of a constructed wrapper; [raw_lengthscale] is the
    parameter behind the property [lengthscale] of [gpytorch.kernels.Kernel]. *)
Record GPyTorchGeometricKernel := {
  base_kernel : BaseGeometricKernel;
  _trainable_nu : bool;
  raw_lengthscale : fval;
  raw_nu : fval
}.

Definition with_raw_lengthscale (self : GPyTorchGeometricKernel) (raw : fval)
    : GPyTorchGeometricKernel :=
  {| base_kernel := base_kernel self;
     _trainable_nu := _trainable_nu self;
     raw_lengthscale := raw;
     raw_nu := raw_nu self |}.

Definition with_raw_nu (self : GPyTorchGeometricKernel) (raw : fval)
    : GPyTorchGeometricKernel :=
  {| base_kernel := base_kernel self;
     _trainable_nu := _trainable_nu self;
     raw_lengthscale := raw_lengthscale self;
     raw_nu := raw |}.

(** A computation of the wrapper: the calls made to the base kernel, and
    the exception raised or the value returned. *)
Definition traced (A : Type) : Type := list event * result A.

(** gpytorch's [initialize] for a raw parameter under a constraint: a raw
    value whose transform is out of the bounds of the constraint is
    refused with [RuntimeError]. *)
Definition initialize (raw : fval) : result fval :=
  if check (transform raw) then ret raw else raise RuntimeError.

(** The setter of the property [lengthscale], inherited from
    [gpytorch.kernels.Kernel]. *)
Definition set_lengthscale (self : GPyTorchGeometricKernel) (value : fval)
    : result GPyTorchGeometricKernel :=
  bind (initialize (inverse_transform value)) (fun raw =>
  ret (with_raw_lengthscale self raw)).

(** gpytorch.py, the setter of the property [nu]; [torch.isinf] accepts a
    tensor only. *)
Definition set_nu (self : GPyTorchGeometricKernel) (value : pyvalue)
    : result GPyTorchGeometricKernel :=
  if _trainable_nu self then
    match value with
    | PyFloat _ => raise TypeError
    | TensorValue v =>
        if torch_isinf v then
          raise (ValueError "Cannot have infinite `nu` value when trainable_nu = True")
        else
          bind (initialize (inverse_transform v)) (fun raw =>
          ret (with_raw_nu self raw))
    end
  else
    ret (with_raw_nu self (as_tensor value)).

(** gpytorch.py, [GPyTorchGeometricKernel.__init__]; [None] for an argument
    left out.  The check of line 85 comes before the length scale is set.
    With a trainable [nu] the parameter [raw_nu] is registered with the
    value [1.0] and then set through the setter; otherwise [nu] is
    registered as the buffer [raw_nu]. *)
Definition init (bk : BaseGeometricKernel) (lengthscale nu : option pyvalue)
    (trainable_nu : bool) : traced GPyTorchGeometricKernel :=
  let default_params := init_params bk in
  let nu := match nu with None => p_nu default_params | Some v => as_tensor v end in
  let lengthscale :=
    match lengthscale with
    | None => p_lengthscale default_params
    | Some v => as_tensor v
    end in
  if trainable_nu && torch_isinf nu then
    ([InitParamsCalled],
     raise (ValueError "Cannot have trainable `nu` parameter with infinite value"))
  else
    ([InitParamsCalled],
     bind (set_lengthscale {| base_kernel := bk; _trainable_nu := trainable_nu;
                              raw_lengthscale := Fin 0; raw_nu := Fin 1 |}
             lengthscale) (fun self =>
     if trainable_nu then set_nu self (TensorValue nu)
     else ret (with_raw_nu self nu))).

(** The property [lengthscale]. *)
Definition lengthscale (self : GPyTorchGeometricKernel) : fval :=
  transform (raw_lengthscale self).

(** The property [nu]. *)
Definition nu (self : GPyTorchGeometricKernel) : fval :=
  if _trainable_nu self then transform (raw_nu self) else raw_nu self.

(** [forward]: the kernel evaluation. *)
Definition forward (self : GPyTorchGeometricKernel) (x1 x2 : X) (diag : bool)
    : list event * Mat :=
  let ps := Params (lengthscale self) (nu self) in
  if diag then ([KDiagCalled], K_diag (base_kernel self) ps x1)
  else ([KCalled], K (base_kernel self) ps x1 x2).

(** The values of [nu] and of the length scale the constructor works
    with. *)
Definition effective_nu (bk : BaseGeometricKernel) (nu : option pyvalue) : fval :=
  match nu with None => p_nu (init_params bk) | Some v => as_tensor v end.

Definition effective_lengthscale (bk : BaseGeometricKernel)
    (lengthscale : option pyvalue) : fval :=
  match lengthscale with
  | None => p_lengthscale (init_params bk)
  | Some v => as_tensor v
  end.

(** C4. Constructing the wrapper with [trainable_nu=True] and an infinite
    [nu] (given, or taken from the defaults of the base kernel) raises
    [ValueError] in [__init__]: no wrapper is returned, and the only call
    made to the base kernel is [init_params], no evaluation.  That error is
    raised in no other case; and whenever the values pass the checks of the
    constraints (of the length scale, and of [nu] if it is trainable), any
    other combination constructs a wrapper. *)
Theorem trainable_infinite_nu_rejected :
  (forall bk lengthscale inf,
      inf = PyFloat PInf \/ inf = TensorValue PInf ->
      init bk lengthscale (Some inf) true
      = ([InitParamsCalled],
         raise (ValueError "Cannot have trainable `nu` parameter with infinite value"))) /\
  (forall bk lengthscale nu,
      torch_isinf (effective_nu bk nu) = true ->
      init bk lengthscale nu true
      = ([InitParamsCalled],
         raise (ValueError "Cannot have trainable `nu` parameter with infinite value"))) /\
  (forall bk lengthscale nu trainable_nu,
      (KCalled ∉ (init bk lengthscale nu trainable_nu).1) /\
      (KDiagCalled ∉ (init bk lengthscale nu trainable_nu).1)) /\
  (forall bk lengthscale nu trainable_nu,
      (init bk lengthscale nu trainable_nu).2
      = raise (ValueError "Cannot have trainable `nu` parameter with infinite value") ->
      trainable_nu = true /\ torch_isinf (effective_nu bk nu) = true) /\
  (forall bk lengthscale nu trainable_nu,
      (trainable_nu && torch_isinf (effective_nu bk nu)) = false ->
      check (transform (inverse_transform (effective_lengthscale bk lengthscale)))
      = true ->
      (trainable_nu = true ->
       check (transform (inverse_transform (effective_nu bk nu))) = true) ->
      exists self, (init bk lengthscale nu trainable_nu).2 = ret self /\
                   _trainable_nu self = trainable_nu).
Proof.
  split; [by intros bk ls inf [-> | ->]|].
  split.
  { intros bk ls nu0 Hinf. unfold init, effective_nu in *.
    rewrite Hinf. reflexivity. }
  split.
  { intros bk ls nu0 tr. unfold init.
    destruct (tr && torch_isinf _); simpl;
      split; rewrite list_elem_of_singleton; discriminate. }
  split.
  { intros bk ls nu0 tr. unfold init, effective_nu.
    destruct (tr && torch_isinf _) eqn:Hc; simpl.
    - intros _. by apply andb_true_iff in Hc.
    - unfold set_lengthscale, initialize.
      destruct (check (transform (inverse_transform _))); simpl; [|discriminate].
      destruct tr; simpl; [|discriminate].
      simpl in Hc. unfold set_nu. simpl. rewrite Hc. unfold initialize.
      destruct (check (transform (inverse_transform _))); simpl; discriminate. }
  intros bk ls nu0 tr Hok Hls Hnu. unfold init, effective_nu, effective_lengthscale in *.
  rewrite Hok. simpl. unfold set_lengthscale, initialize. rewrite Hls. simpl.
  destruct tr; simpl in *.
  - unfold set_nu. simpl. rewrite Hok. unfold initialize.
    rewrite (Hnu eq_refl). simpl. eexists. split; reflexivity.
  - eexists. split; reflexivity.
Qed.

End wrapper.

(** A base kernel whose default smoothness is infinite. *)
Definition heat_kernel : @BaseGeometricKernel Z Z :=
  {| init_params := Params (Fin 1) PInf;
     K := fun _ x1 x2 => (x1 * x2)%Z;
     K_diag := fun _ x => (x * x)%Z |}.

(** A constraint for running the model: the identity as transform, and the
    bounds [0 <= v <= inf]. *)
Definition positive (v : fval) : bool :=
  match v with
  | Fin q => bool_decide (0 <= q)%Qc
  | PInf => true
  | NInf | NaN => false
  end.

Lemma trainable_infinite_nu_rejected_witness :
  torch_isinf (effective_nu heat_kernel None) = true /\
  init (fun v => v) (fun v => v) positive heat_kernel None None true
  = ([InitParamsCalled],
     raise (ValueError "Cannot have trainable `nu` parameter with infinite value")).
Proof.
  split; [reflexivity|].
  apply (proj1 (proj2 (trainable_infinite_nu_rejected (fun v => v) (fun v => v)
                         positive))).
  reflexivity.
Defined.

(** The constructor on the model constraint: a negative trainable [nu] and
    a negative length scale are refused by the constraint, a positive
    finite [nu] is accepted, and an infinite [nu] that is not trainable is
    accepted. *)
Example init_examples :
  (init (fun v => v) (fun v => v) positive heat_kernel None
     (Some (PyFloat (Fin (-1)))) true).2 = raise RuntimeError /\
  (init (fun v => v) (fun v => v) positive heat_kernel
     (Some (PyFloat (Fin (-1)))) None false).2 = raise RuntimeError /\
  (init (fun v => v) (fun v => v) positive heat_kernel None
     (Some (PyFloat (Fin 2))) true).2
  = ret {| base_kernel := heat_kernel; _trainable_nu := true;
           raw_lengthscale := Fin 1; raw_nu := Fin 2 |} /\
  (init (fun v => v) (fun v => v) positive heat_kernel None None false).2
  = ret {| base_kernel := heat_kernel; _trainable_nu := false;
           raw_lengthscale := Fin 1; raw_nu := PInf |}.
Proof. repeat split; vm_compute; reflexivity. Qed.

End GPyTorch.

(** * Gather along an axis: [take_along_axis] *)

Module Gather.

Local Open Scope Z_scope.

(** Arrays of rank one and two; a rank-two array is the list of its rows,
    all of one length.  Index arrays are arrays of integers. *)
Inductive ndarray := Arr1 (l : list Z) | Arr2 (rows : list (list Z)).

#[global] Instance ndarray_eq_dec : EqDecision ndarray.
Proof. solve_decision. Defined.

Definition ndim (a : ndarray) : Z :=
  match a with Arr1 _ => 1 | Arr2 _ => 2 end.

(** The shape of a list of rows, if they all have one length. *)
Definition shape2 (rows : list (list Z)) : option (nat * nat) :=
  match rows with
  | [] => Some (0%nat, 0%nat)
  | r :: rs =>
      if forallb (fun r' => Nat.eqb (length r') (length r)) rs
      then Some (length rows, length r) else None
  end.

(** [mapM] for computations that may raise. *)
Fixpoint mapR {A B} (f : A -> result B) (l : list A) : result (list B) :=
  match l with
  | [] => ret []
  | x :: l' => bind (f x) (fun y => bind (mapR f l') (fun ys => ret (y :: ys)))
  end.

Definition from_option {A} (e : exn) (o : option A) : result A :=
  match o with Some a => ret a | None => raise e end.

(** An axis argument, which may count from the end. *)
Definition normalize_axis (e : exn) (nd axis : Z) : result Z :=
  if (- nd <=? axis) && (axis <? nd) then ret (axis mod nd) else raise e.

(** numpy indexing: a negative index counts from the end, an index out of
    bounds raises [IndexError]. *)
Definition np_index (n : nat) (i : Z) : result nat :=
  if (0 <=? i) && (i <? Z.of_nat n) then ret (Z.to_nat i)
  else if (- Z.of_nat n <=? i) && (i <? 0) then ret (Z.to_nat (i + Z.of_nat n))
  else raise IndexError.

(** TensorFlow's gather: the index must be in [0, n); anything else raises
    [InvalidArgumentError]. *)
Definition tf_index (n : nat) (i : Z) : result nat :=
  if (0 <=? i) && (i <? Z.of_nat n) then ret (Z.to_nat i)
  else raise InvalidArgumentError.

(** The size two sizes broadcast to; sizes that do not broadcast raise
    [IndexError] (shape mismatch of the indexing arrays). *)
Definition broadcast (n m : nat) : result nat :=
  if Nat.eqb n m then ret n
  else if Nat.eqb n 1 then ret m
  else if Nat.eqb m 1 then ret n
  else raise IndexError.

(** The position read in a dimension of size [n] for output position [j]:
    a dimension of size one is repeated. *)
Definition bpos (n j : nat) : nat := if Nat.eqb n 1 then 0%nat else j.

Definition get2 (rows : list (list Z)) (i j : nat) : result Z :=
  from_option IndexError (r ← rows !! i; r !! j).

(** [np.take_along_axis(a, index, axis)]: [a] and [index] have the same
    rank and broadcast against each other in the dimensions other than
    [axis]; the output has the broadcast shape, with the size of [index]
    along [axis], and each of its entries is the entry of [a] at the same
    position except along [axis], where the position is the index value. *)
Definition np_take_along_axis (a index : ndarray) (axis : Z) : result ndarray :=
  match a, index with
  | Arr1 la, Arr1 li =>
      bind (normalize_axis (ValueError "axis is out of bounds") 1 axis) (fun _ =>
      bind (mapR (fun i => bind (np_index (length la) i) (fun k =>
                           from_option IndexError (la !! k))) li) (fun out =>
      ret (Arr1 out)))
  | Arr2 ra, Arr2 ri =>
      bind (normalize_axis (ValueError "axis is out of bounds") 2 axis) (fun ax =>
      bind (from_option (ValueError "ragged array") (shape2 ra)) (fun '(na, ma) =>
      bind (from_option (ValueError "ragged array") (shape2 ri)) (fun '(ni, mi) =>
      if ax =? 0 then
        bind (broadcast ma mi) (fun m =>
        bind (mapR (fun i =>
                mapR (fun j =>
                  bind (get2 ri i (bpos mi j)) (fun ix =>
                  bind (np_index na ix) (fun k =>
                  get2 ra k (bpos ma j)))) (seq 0 m)) (seq 0 ni)) (fun out =>
        ret (Arr2 out)))
      else
        bind (broadcast na ni) (fun n =>
        bind (mapR (fun i =>
                mapR (fun j =>
                  bind (get2 ri (bpos ni i) j) (fun ix =>
                  bind (np_index ma ix) (fun k =>
                  get2 ra (bpos na i) k))) (seq 0 mi)) (seq 0 n)) (fun out =>
        ret (Arr2 out))))))
  | _, _ =>
      raise (ValueError "`indices` and `arr` must have the same number of dimensions")
  end.

(** [B.flatten(index)]: the entries in row-major order. *)
Definition flatten (a : ndarray) : list Z :=
  match a with
  | Arr1 l => l
  | Arr2 rows => concat rows
  end.

(** [tf.gather(params, indices, axis)] for a rank-one [indices]: the slices
    of [params] along [axis] at the positions [indices], in that order. *)
Definition tf_gather (params : ndarray) (indices : list Z) (axis : Z)
    : result ndarray :=
  match params with
  | Arr1 l =>
      bind (normalize_axis InvalidArgumentError 1 axis) (fun _ =>
      bind (mapR (fun i => bind (tf_index (length l) i) (fun k =>
                           from_option InvalidArgumentError (l !! k))) indices)
        (fun out => ret (Arr1 out)))
  | Arr2 rows =>
      bind (normalize_axis InvalidArgumentError 2 axis) (fun ax =>
      bind (from_option (ValueError "ragged array") (shape2 rows)) (fun '(n, m) =>
      if ax =? 0 then
        bind (mapR (fun i => bind (tf_index n i) (fun k =>
                             from_option InvalidArgumentError (rows !! k))) indices)
          (fun out => ret (Arr2 out))
      else
        bind (mapR (fun row =>
                mapR (fun i => bind (tf_index m i) (fun k =>
                               from_option InvalidArgumentError (row !! k)))
                  indices) rows)
          (fun out => ret (Arr2 out))))
  end.

(** numpy/extras.py, [take_along_axis]. *)
Definition take_along_axis_np (a index : ndarray) (axis : Z) : result ndarray :=
  np_take_along_axis a index axis.

(** tensorflow/extras.py, [take_along_axis]. *)
Definition take_along_axis_tf (a index : ndarray) (axis : Z) : result ndarray :=
  tf_gather a (flatten index) axis.

Example take_along_axis_rank1 :
  take_along_axis_np (Arr1 [10; 20; 30]) (Arr1 [2; 0; 2]) 0 = ret (Arr1 [30; 10; 30]) /\
  take_along_axis_tf (Arr1 [10; 20; 30]) (Arr1 [2; 0; 2]) 0 = ret (Arr1 [30; 10; 30]).
Proof. split; reflexivity. Qed.

Lemma mapR_ok {A B} (f : A -> result B) (g : A -> B) (l : list A) :
  Forall (fun x => f x = ret (g x)) l -> mapR f l = ret (map g l).
Proof.
  induction 1 as [|x l Hx _ IH]; simpl; [reflexivity|].
  rewrite Hx, IH. reflexivity.
Qed.

Lemma index_in_range (n : nat) (i : Z) :
  0 <= i < Z.of_nat n ->
  np_index n i = ret (Z.to_nat i) /\ tf_index n i = ret (Z.to_nat i).
Proof.
  intros Hi. unfold np_index, tf_index.
  assert (H : (0 <=? i) && (i <? Z.of_nat n) = true).
  { apply andb_true_intro. split; [apply Z.leb_le|apply Z.ltb_lt]; lia. }
  rewrite H. done.
Qed.

Lemma gather_rank1_entry (e : exn) (la : list Z) (i : Z) :
  0 <= i < Z.of_nat (length la) ->
  from_option e (la !! Z.to_nat i) = ret (default 0 (la !! Z.to_nat i)).
Proof.
  intros Hi. destruct (la !! Z.to_nat i) as [x|] eqn:Hx; [reflexivity|].
  apply lookup_ge_None in Hx. lia.
Qed.

(** C3. The two [take_along_axis] do not return the same result on
    [a = [[1, 2], [3, 4]]], [index = [[1, 0]]], [axis = 0], where the
    gather is defined: numpy returns [[[3, 2]]], of the shape of the index
    and with the entry of [a] each index value selects in its column, while
    the tensorflow function flattens the index and returns the whole rows 1
    and 0 of [a], [[[3, 4], [1, 2]]].  So not every result of the numpy
    function is the result of the tensorflow one.  At rank two they do
    return the same where gathering whole slices gives nothing else, as for
    the index with one column [[[1], [0]]] (axis 0) or with one row
    [[[1, 0, 1]]] (axis 1). *)
Theorem take_along_axis_backends_differ :
  take_along_axis_np (Arr2 [[1; 2]; [3; 4]]) (Arr2 [[1; 0]]) 0
  = ret (Arr2 [[3; 2]]) /\
  take_along_axis_tf (Arr2 [[1; 2]; [3; 4]]) (Arr2 [[1; 0]]) 0
  = ret (Arr2 [[3; 4]; [1; 2]]) /\
  ~ (forall a index axis r,
       take_along_axis_np a index axis = ret r ->
       take_along_axis_tf a index axis = ret r) /\
  take_along_axis_np (Arr2 [[1; 2]; [3; 4]]) (Arr2 [[1]; [0]]) 0
  = ret (Arr2 [[3; 4]; [1; 2]]) /\
  take_along_axis_tf (Arr2 [[1; 2]; [3; 4]]) (Arr2 [[1]; [0]]) 0
  = ret (Arr2 [[3; 4]; [1; 2]]) /\
  take_along_axis_np (Arr2 [[1; 2]; [3; 4]]) (Arr2 [[1; 0; 1]]) 1
  = ret (Arr2 [[2; 1; 2]; [4; 3; 4]]) /\
  take_along_axis_tf (Arr2 [[1; 2]; [3; 4]]) (Arr2 [[1; 0; 1]]) 1
  = ret (Arr2 [[2; 1; 2]; [4; 3; 4]]).
Proof.
  split; [reflexivity|]. split; [reflexivity|].
  split; [|repeat split; reflexivity].
  intros H.
  specialize (H (Arr2 [[1; 2]; [3; 4]]) (Arr2 [[1; 0]]) 0 (Arr2 [[3; 2]]) eq_refl).
  vm_compute in H. discriminate H.
Qed.

(** X26. On rank-one arrays, with the axis 0 (or -1) and every index
    within [0, len(a)), the numpy and the tensorflow [take_along_axis]
    return the same array: it has the length of the index array and its
    entry at each position is the entry of [a] at the index value. *)
Theorem take_along_axis_rank1_agree (la li : list Z) (axis : Z) :
  axis = 0 \/ axis = -1 ->
  Forall (fun i => 0 <= i < Z.of_nat (length la)) li ->
  exists out,
    take_along_axis_np (Arr1 la) (Arr1 li) axis = ret (Arr1 out) /\
    take_along_axis_tf (Arr1 la) (Arr1 li) axis = ret (Arr1 out) /\
    length out = length li /\
    (forall (j : nat) i, li !! j = Some i -> out !! j = la !! Z.to_nat i).
Proof.
  intros Hax Hin.
  exists (map (fun i => default 0 (la !! Z.to_nat i)) li).
  assert (Hnorm : forall e, normalize_axis e 1 axis = ret 0).
  { intros e. destruct Hax as [-> | ->]; reflexivity. }
  split; [|split; [|split]].
  - unfold take_along_axis_np, np_take_along_axis. rewrite Hnorm. simpl.
    rewrite (mapR_ok _ (fun i => default 0 (la !! Z.to_nat i))); [reflexivity|].
    eapply Forall_impl; [exact Hin|]. intros i Hi. simpl in Hi.
    rewrite (proj1 (index_in_range _ _ Hi)). simpl.
    by apply gather_rank1_entry.
  - unfold take_along_axis_tf, tf_gather, flatten. rewrite Hnorm. simpl.
    rewrite (mapR_ok _ (fun i => default 0 (la !! Z.to_nat i))); [reflexivity|].
    eapply Forall_impl; [exact Hin|]. intros i Hi. simpl in Hi.
    rewrite (proj2 (index_in_range _ _ Hi)). simpl.
    by apply gather_rank1_entry.
  - apply length_map.
  - intros j i Hj.
    change (map ?f ?l) with (f <$> l). rewrite list_lookup_fmap, Hj. simpl.
    rewrite Forall_forall in Hin.
    assert (Hi : 0 <= i < Z.of_nat (length la)).
    { apply Hin. eapply list_elem_of_lookup_2. exact Hj. }
    destruct (la !! Z.to_nat i) as [x|] eqn:Hx; [reflexivity|].
    apply lookup_ge_None in Hx. lia.
Qed.

Lemma take_along_axis_rank1_agree_witness :
  exists out,
    take_along_axis_np (Arr1 [10; 20; 30]) (Arr1 [2; 0; 2]) 0 = ret (Arr1 out) /\
    take_along_axis_tf (Arr1 [10; 20; 30]) (Arr1 [2; 0; 2]) 0 = ret (Arr1 out) /\
    length out = length [2; 0; 2] /\
    (forall (j : nat) i, [2; 0; 2] !! j = Some i ->
       out !! j = [10; 20; 30] !! Z.to_nat i).
Proof.
  apply (take_along_axis_rank1_agree [10; 20; 30] [2; 0; 2] 0).
  - left. reflexivity.
  - repeat constructor; simpl; lia.
Defined.

(** Outside that range the backends part ways at rank one as well: numpy
    counts a negative index from the end, TensorFlow rejects it. *)
Example take_along_axis_negative_index :
  take_along_axis_np (Arr1 [10; 20; 30]) (Arr1 [-1]) 0 = ret (Arr1 [30]) /\
  take_along_axis_tf (Arr1 [10; 20; 30]) (Arr1 [-1]) 0 = raise InvalidArgumentError.
Proof. split; reflexivity. Qed.

(** ** Rank-one gathers: index bounds, identity and composition *)

(** The entry both backends read for an index that is in range. *)
Definition pick (la : list Z) (i : Z) : Z := default 0 (la !! Z.to_nat i).

Lemma gather_rank1_value (la li : list Z) :
  Forall (fun i => 0 <= i < Z.of_nat (length la)) li ->
  take_along_axis_np (Arr1 la) (Arr1 li) 0 = ret (Arr1 (map (pick la) li)) /\
  take_along_axis_tf (Arr1 la) (Arr1 li) 0 = ret (Arr1 (map (pick la) li)).
Proof.
  intros Hin. split.
  - unfold take_along_axis_np, np_take_along_axis. simpl.
    rewrite (mapR_ok _ (pick la)); [reflexivity|].
    eapply Forall_impl; [exact Hin|]. intros i Hi. simpl in Hi.
    rewrite (proj1 (index_in_range _ _ Hi)). simpl.
    by apply gather_rank1_entry.
  - unfold take_along_axis_tf, tf_gather, flatten. simpl.
    rewrite (mapR_ok _ (pick la)); [reflexivity|].
    eapply Forall_impl; [exact Hin|]. intros i Hi. simpl in Hi.
    rewrite (proj2 (index_in_range _ _ Hi)). simpl.
    by apply gather_rank1_entry.
Qed.

Lemma mapR_raise {A B} (f : A -> result B) (e : exn) (l : list A) :
  (forall x, f x = raise e \/ exists y, f x = ret y) ->
  Exists (fun x => f x = raise e) l ->
  mapR f l = raise e.
Proof.
  intros Hf. induction 1 as [x l Hx|x l _ IH]; simpl.
  - by rewrite Hx.
  - destruct (Hf x) as [Hx|[y Hx]]; rewrite Hx; simpl; [done|].
    by rewrite IH.
Qed.

Lemma np_rank1_entry_cases (la : list Z) (i : Z) :
  bind (np_index (length la) i) (fun k => from_option IndexError (la !! k))
  = raise IndexError \/
  exists y,
    bind (np_index (length la) i) (fun k => from_option IndexError (la !! k))
    = ret y.
Proof.
  unfold np_index.
  destruct ((0 <=? i) && (i <? Z.of_nat (length la))) eqn:H1; simpl.
  - destruct (la !! Z.to_nat i); simpl; eauto.
  - destruct ((- Z.of_nat (length la) <=? i) && (i <? 0)); simpl; [|by left].
    destruct (la !! Z.to_nat (i + Z.of_nat (length la))); simpl; eauto.
Qed.

Lemma tf_rank1_entry_cases (la : list Z) (i : Z) :
  bind (tf_index (length la) i)
    (fun k => from_option InvalidArgumentError (la !! k))
  = raise InvalidArgumentError \/
  exists y,
    bind (tf_index (length la) i)
      (fun k => from_option InvalidArgumentError (la !! k))
    = ret y.
Proof.
  unfold tf_index.
  destruct ((0 <=? i) && (i <? Z.of_nat (length la))); simpl; [|by left].
  destruct (la !! Z.to_nat i); simpl; eauto.
Qed.

(** X19. numpy counts a negative index from the end: on rank-one arrays,
    with every index in [-len(a), len(a)), [take_along_axis] succeeds and
    returns what it returns for the indices taken modulo [len(a)]. *)
Theorem take_along_axis_np_negative_index (la li : list Z) :
  Forall (fun i => - Z.of_nat (length la) <= i < Z.of_nat (length la)) li ->
  take_along_axis_np (Arr1 la) (Arr1 li) 0
  = ret (Arr1 (map (fun i => pick la (i mod Z.of_nat (length la))) li)) /\
  take_along_axis_np (Arr1 la) (Arr1 li) 0
  = take_along_axis_np (Arr1 la)
      (Arr1 (map (fun i => i mod Z.of_nat (length la)) li)) 0.
Proof.
  intros Hin.
  assert (H1 : take_along_axis_np (Arr1 la) (Arr1 li) 0
    = ret (Arr1 (map (fun i => pick la (i mod Z.of_nat (length la))) li))).
  { unfold take_along_axis_np, np_take_along_axis. simpl.
    rewrite (mapR_ok _ (fun i => pick la (i mod Z.of_nat (length la))));
      [reflexivity|].
    eapply Forall_impl; [exact Hin|]. intros i Hi. simpl in Hi.
    unfold np_index.
    destruct ((0 <=? i) && (i <? Z.of_nat (length la))) eqn:Hpos; simpl.
    - apply andb_true_iff in Hpos as [H0%Z.leb_le Hn%Z.ltb_lt].
      rewrite Z.mod_small by lia. apply gather_rank1_entry. lia.
    - assert (Hneg : i < 0).
      { apply andb_false_iff in Hpos as [H%Z.leb_gt|H%Z.ltb_ge]; lia. }
      assert (Hb : (- Z.of_nat (length la) <=? i) && (i <? 0) = true).
      { apply andb_true_iff. split; [apply Z.leb_le|apply Z.ltb_lt]; lia. }
      rewrite Hb. simpl.
      assert (Hmod : i mod Z.of_nat (length la) = i + Z.of_nat (length la)).
      { symmetry. apply (Z.mod_unique _ _ (-1)); lia. }
      rewrite Hmod. apply gather_rank1_entry. lia. }
  split; [exact H1|]. rewrite H1. symmetry.
  destruct (decide (length la = 0%nat)) as [H0|H0].
  { destruct li as [|i li]; [reflexivity|].
    apply Forall_cons in Hin as [Hi _]. lia. }
  assert (Hmod : Forall (fun j => 0 <= j < Z.of_nat (length la))
                   (map (fun i => i mod Z.of_nat (length la)) li)).
  { apply Forall_forall. intros j Hj.
    apply list_elem_of_In, in_map_iff in Hj as (i & <- & _).
    apply Z.mod_pos_bound. lia. }
  destruct (gather_rank1_value la _ Hmod) as [Hnp _].
  rewrite Hnp. by rewrite map_map.
Qed.

Lemma take_along_axis_np_negative_index_witness :
  take_along_axis_np (Arr1 [10; 20; 30]) (Arr1 [-1; 0; -3]) 0
  = ret (Arr1 (map (fun i => pick [10; 20; 30]
                               (i mod Z.of_nat (length [10; 20; 30])))
                 [-1; 0; -3])) /\
  take_along_axis_np (Arr1 [10; 20; 30]) (Arr1 [-1; 0; -3]) 0
  = take_along_axis_np (Arr1 [10; 20; 30])
      (Arr1 (map (fun i => i mod Z.of_nat (length [10; 20; 30])) [-1; 0; -3])) 0.
Proof.
  apply (take_along_axis_np_negative_index [10; 20; 30] [-1; 0; -3]).
  repeat constructor; simpl; lia.
Defined.

(** X20. Index bounds on rank-one arrays: numpy raises [IndexError] as
    soon as one index lies outside [-len(a), len(a)); the tensorflow
    backend raises [InvalidArgumentError] (as [tf.gather] does on CPU) as
    soon as one index lies outside [0, len(a)), a negative one included. *)
Theorem take_along_axis_index_out_of_bounds (la li : list Z) :
  (Exists (fun i => i < - Z.of_nat (length la) \/ Z.of_nat (length la) <= i) li ->
   take_along_axis_np (Arr1 la) (Arr1 li) 0 = raise IndexError) /\
  (Exists (fun i => i < 0 \/ Z.of_nat (length la) <= i) li ->
   take_along_axis_tf (Arr1 la) (Arr1 li) 0 = raise InvalidArgumentError).
Proof.
  split; intros Hex.
  - unfold take_along_axis_np, np_take_along_axis. simpl.
    rewrite (mapR_raise _ IndexError); [reflexivity| |].
    + intros i. apply np_rank1_entry_cases.
    + eapply Exists_impl; [exact Hex|]. intros i Hi. simpl in Hi.
      unfold np_index.
      rewrite (proj2 (andb_false_iff _ _)); [|].
      * rewrite (proj2 (andb_false_iff _ _)); [reflexivity|].
        destruct Hi; [left; apply Z.leb_gt; lia|right; apply Z.ltb_ge; lia].
      * destruct Hi; [left; apply Z.leb_gt; lia|right; apply Z.ltb_ge; lia].
  - unfold take_along_axis_tf, tf_gather, flatten. simpl.
    rewrite (mapR_raise _ InvalidArgumentError); [reflexivity| |].
    + intros i. apply tf_rank1_entry_cases.
    + eapply Exists_impl; [exact Hex|]. intros i Hi. simpl in Hi.
      unfold tf_index.
      rewrite (proj2 (andb_false_iff _ _)); [reflexivity|].
      destruct Hi; [left; apply Z.leb_gt; lia|right; apply Z.ltb_ge; lia].
Qed.

Lemma take_along_axis_index_out_of_bounds_witness :
  take_along_axis_np (Arr1 [10; 20; 30]) (Arr1 [0; 3]) 0 = raise IndexError /\
  take_along_axis_tf (Arr1 [10; 20; 30]) (Arr1 [0; -1]) 0
  = raise InvalidArgumentError.
Proof.
  split.
  - apply (proj1 (take_along_axis_index_out_of_bounds [10; 20; 30] [0; 3])).
    apply Exists_cons_tl, Exists_cons_hd. simpl. lia.
  - apply (proj2 (take_along_axis_index_out_of_bounds [10; 20; 30] [0; -1])).
    apply Exists_cons_tl, Exists_cons_hd. simpl. lia.
Defined.

Lemma pick_lookup (la : list Z) (i : Z) :
  0 <= i < Z.of_nat (length la) -> la !! Z.to_nat i = Some (pick la i).
Proof.
  intros Hi. unfold pick. destruct (la !! Z.to_nat i) as [x|] eqn:Hx; [done|].
  apply lookup_ge_None in Hx. lia.
Qed.

(** X21. Gathering a rank-one array at the indices [0, 1, ..., len(a)-1]
    returns the array itself, on both backends. *)
Theorem take_along_axis_identity (la : list Z) :
  take_along_axis_np (Arr1 la) (Arr1 (seqZ 0 (Z.of_nat (length la)))) 0
  = ret (Arr1 la) /\
  take_along_axis_tf (Arr1 la) (Arr1 (seqZ 0 (Z.of_nat (length la)))) 0
  = ret (Arr1 la).
Proof.
  assert (Hin : Forall (fun i => 0 <= i < Z.of_nat (length la))
                  (seqZ 0 (Z.of_nat (length la)))).
  { apply Forall_forall. intros i Hi. apply elem_of_seqZ in Hi. lia. }
  assert (Hid : map (pick la) (seqZ 0 (Z.of_nat (length la))) = la).
  { apply list_eq. intros j.
    change (map ?f ?l) with (f <$> l). rewrite list_lookup_fmap.
    destruct (la !! j) as [x|] eqn:Hx.
    - pose proof (lookup_lt_Some _ _ _ Hx) as Hj.
      rewrite lookup_seqZ_lt by lia. simpl.
      unfold pick. rewrite Z.add_0_l, Nat2Z.id, Hx. done.
    - apply lookup_ge_None in Hx.
      rewrite lookup_seqZ_ge by lia. done. }
  destruct (gather_rank1_value la _ Hin) as [Hnp Htf].
  rewrite Hnp, Htf, Hid. done.
Qed.

(** X22. Rank-one gathers compose, on both backends: with [index1] in
    range for [a] and [index2] in range for [index1], gathering
    [take_along_axis(a, index1)] at [index2] gives what gathering [a] at
    [take_along_axis(index1, index2)] gives. *)
Theorem take_along_axis_compose (la li lj : list Z) :
  Forall (fun i => 0 <= i < Z.of_nat (length la)) li ->
  Forall (fun j => 0 <= j < Z.of_nat (length li)) lj ->
  exists g1 g2 out,
    take_along_axis_np (Arr1 la) (Arr1 li) 0 = ret (Arr1 g1) /\
    take_along_axis_np (Arr1 g1) (Arr1 lj) 0 = ret (Arr1 out) /\
    take_along_axis_np (Arr1 li) (Arr1 lj) 0 = ret (Arr1 g2) /\
    take_along_axis_np (Arr1 la) (Arr1 g2) 0 = ret (Arr1 out) /\
    take_along_axis_tf (Arr1 la) (Arr1 li) 0 = ret (Arr1 g1) /\
    take_along_axis_tf (Arr1 g1) (Arr1 lj) 0 = ret (Arr1 out) /\
    take_along_axis_tf (Arr1 li) (Arr1 lj) 0 = ret (Arr1 g2) /\
    take_along_axis_tf (Arr1 la) (Arr1 g2) 0 = ret (Arr1 out).
Proof.
  intros Hi Hj.
  set (g1 := map (pick la) li).
  set (g2 := map (pick li) lj).
  assert (Hj1 : Forall (fun j => 0 <= j < Z.of_nat (length g1)) lj).
  { unfold g1. by rewrite length_map. }
  assert (Hg2 : Forall (fun i => 0 <= i < Z.of_nat (length la)) g2).
  { apply Forall_forall. intros i Hin.
    apply list_elem_of_In, in_map_iff in Hin as (j & <- & Hjin).
    rewrite Forall_forall in Hi, Hj.
    apply Hi. eapply list_elem_of_lookup_2. apply pick_lookup.
    apply Hj. by apply list_elem_of_In. }
  assert (Heq : map (pick g1) lj = map (pick la) g2).
  { unfold g2. rewrite map_map. apply map_ext_in. intros j Hjin.
    rewrite Forall_forall in Hj.
    specialize (Hj j (proj2 (list_elem_of_In _ _) Hjin)).
    unfold pick at 1. unfold g1.
    change (map ?f ?l) with (f <$> l). rewrite list_lookup_fmap.
    by rewrite (pick_lookup li j Hj). }
  destruct (gather_rank1_value la li Hi) as [Hn1 Ht1].
  destruct (gather_rank1_value g1 lj Hj1) as [Hn2 Ht2].
  destruct (gather_rank1_value li lj Hj) as [Hn3 Ht3].
  destruct (gather_rank1_value la g2 Hg2) as [Hn4 Ht4].
  exists g1, g2, (map (pick la) g2).
  rewrite <- Heq. rewrite <- Heq in Hn4, Ht4.
  repeat split; assumption.
Qed.

Lemma take_along_axis_compose_witness :
  exists g1 g2 out,
    take_along_axis_np (Arr1 [10; 20; 30]) (Arr1 [2; 0]) 0 = ret (Arr1 g1) /\
    take_along_axis_np (Arr1 g1) (Arr1 [1; 1; 0]) 0 = ret (Arr1 out) /\
    take_along_axis_np (Arr1 [2; 0]) (Arr1 [1; 1; 0]) 0 = ret (Arr1 g2) /\
    take_along_axis_np (Arr1 [10; 20; 30]) (Arr1 g2) 0 = ret (Arr1 out) /\
    take_along_axis_tf (Arr1 [10; 20; 30]) (Arr1 [2; 0]) 0 = ret (Arr1 g1) /\
    take_along_axis_tf (Arr1 g1) (Arr1 [1; 1; 0]) 0 = ret (Arr1 out) /\
    take_along_axis_tf (Arr1 [2; 0]) (Arr1 [1; 1; 0]) 0 = ret (Arr1 g2) /\
    take_along_axis_tf (Arr1 [10; 20; 30]) (Arr1 g2) 0 = ret (Arr1 out).
Proof.
  apply (take_along_axis_compose [10; 20; 30] [2; 0] [1; 1; 0]);
    repeat constructor; simpl; lia.
Defined.

End Gather.

(** * Eigenpairs (tensorflow backend) *)

Module Eigen.

Local Open Scope Qc_scope.

(** A matrix is the list of its rows. *)
Definition matrix := list (list Qc).

(** Python slicing [l[:k]]: a non-negative [k] keeps the first [k]
    entries, a negative one drops the last [-k]. *)
Definition py_slice_to {A} (k : Z) (l : list A) : list A :=
  if (0 <=? k)%Z then take (Z.to_nat k) l
  else take (length l - Z.to_nat (- k)) l.

(** [l[k:]], the entries [l[:k]] leaves out. *)
Definition py_slice_from {A} (k : Z) (l : list A) : list A :=
  if (0 <=? k)%Z then drop (Z.to_nat k) l
  else drop (length l - Z.to_nat (- k)) l.

(** [u[:, :k]]. *)
Definition py_slice_cols (k : Z) (u : matrix) : matrix := map (py_slice_to k) u.

Section eigenpairs.

(** [tf.linalg.eigh]: the eigenvalues of a symmetric matrix and the matrix
    whose columns are the matching eigenvectors. *)
Context (eigh : matrix -> list Qc * matrix).

(** tensorflow/extras.py, [eigenpairs]. *)
Definition eigenpairs (L : matrix) (k : Z) : list Qc * matrix :=
  let (l, u) := eigh L in
  (py_slice_to k l, py_slice_cols k u).

End eigenpairs.

(** ** The contract of [tf.linalg.eigh] *)

Definition dot (v w : list Qc) : Qc :=
  foldr (fun p acc => p.1 * p.2 + acc) 0 (zip v w).

Definition matvec (L : matrix) (v : list Qc) : list Qc :=
  map (fun row => dot row v) L.

Definition column (j : nat) (u : matrix) : list Qc :=
  map (fun row => default 0 (row !! j)) u.

(** The [j]-th column of [u] is an eigenvector of [L] of unit length for the
    [j]-th eigenvalue. *)
Definition eigenpair_ok (L : matrix) (l : list Qc) (u : matrix) (j : nat) : bool :=
  bool_decide (matvec L (column j u)
               = map (fun x => default 0 (l !! j) * x) (column j u))
  && bool_decide (dot (column j u) (column j u) = 1).

(** Eigenvalues in non-decreasing order. *)
Fixpoint ascending (l : list Qc) : bool :=
  match l with
  | [] => true
  | x :: l' => forallb (fun y => bool_decide (x ≤ y)) l' && ascending l'
  end.

(** [eigh L] may return [(l, u)]. *)
Definition eigh_contract (L : matrix) (lu : list Qc * matrix) : bool :=
  Nat.eqb (length lu.1) (length L)
  && ascending lu.1
  && forallb (eigenpair_ok L lu.1 lu.2) (seq 0 (length L)).

Lemma ascending_sorted l : ascending l = true -> StronglySorted Qcle l.
Proof.
  induction l as [|x l IH]; simpl; [constructor|].
  intros [Hx Hl]%andb_true_iff. constructor; [by apply IH|].
  apply Forall_forall. intros y Hy.
  rewrite forallb_forall in Hx.
  specialize (Hx y (proj1 (list_elem_of_In _ _) Hy)).
  by apply bool_decide_eq_true in Hx.
Qed.

Lemma py_slice_split {A} (k : Z) (l : list A) :
  (py_slice_to k l ++ py_slice_from k l)%list = l.
Proof.
  unfold py_slice_to, py_slice_from.
  destruct (0 <=? k)%Z; apply take_drop.
Qed.

(** On an ascending list, [l[:k]] holds the smallest entries. *)
Lemma py_slice_to_smallest (k : Z) (l : list Qc) x y :
  ascending l = true ->
  x ∈ py_slice_to k l -> y ∈ py_slice_from k l -> x ≤ y.
Proof.
  intros Hl%ascending_sorted Hx Hy.
  rewrite <- (py_slice_split k l) in Hl.
  by eapply StronglySorted_app_1_elem_of.
Qed.

(** The failing input: [L = diag(1, 2)] and [k = 1]. *)
Definition L12 : matrix := [[1; 0]; [0; 2]].
Definition eigh_L12 : list Qc * matrix := ([1; 2], [[1; 0]; [0; 1]]).

(** C2. [eigenpairs(L, k)] returns [l[:k]] and [u[:, :k]] of the ascending
    decomposition [(l, u)], that is the [k] smallest eigenvalues with their
    eigenvectors: every eigenvalue returned is at most every eigenvalue
    left out.  For [L = diag(1, 2)], whose decomposition is [l = [1, 2]]
    with the unit vectors as columns, and [k = 1] it returns the eigenvalue
    [1] with the eigenvector [(1, 0)]; the largest eigenvalue, [2], is not
    returned. *)
Theorem eigenpairs_returns_smallest :
  (forall eigh L k,
      eigenpairs eigh L k
      = (py_slice_to k (eigh L).1, py_slice_cols k (eigh L).2)) /\
  (forall eigh L k x y,
      ascending (eigh L).1 = true ->
      x ∈ (eigenpairs eigh L k).1 ->
      y ∈ py_slice_from k (eigh L).1 ->
      x ≤ y) /\
  eigh_contract L12 eigh_L12 = true /\
  eigenpairs (fun _ => eigh_L12) L12 1%Z = ([1], [[1]; [0]]) /\
  ((2 : Qc) ∈ eigh_L12.1) /\
  ((2 : Qc) ∉ (eigenpairs (fun _ => eigh_L12) L12 1%Z).1) /\
  (forall x, x ∈ (eigenpairs (fun _ => eigh_L12) L12 1%Z).1 -> x < 2).
Proof.
  split.
  { intros eigh L k. unfold eigenpairs. by destruct (eigh L). }
  split.
  { intros eigh L k x y Hasc Hx Hy.
    unfold eigenpairs in Hx. destruct (eigh L) as [l u]. simpl in *.
    by eapply py_slice_to_smallest. }
  split; [vm_compute; reflexivity|].
  split; [reflexivity|].
  split; [unfold eigh_L12; simpl; rewrite !elem_of_cons; tauto|].
  split.
  - change ((eigenpairs (fun _ => eigh_L12) L12 1%Z).1) with [1 : Qc].
    rewrite list_elem_of_singleton. intros H. discriminate (f_equal this H).
  - change ((eigenpairs (fun _ => eigh_L12) L12 1%Z).1) with [1 : Qc].
    intros x ->%list_elem_of_singleton. reflexivity.
Qed.

Lemma eigenpairs_returns_smallest_witness :
  ascending eigh_L12.1 = true /\
  ((1 : Qc) ∈ (eigenpairs (fun _ => eigh_L12) L12 1%Z).1) /\
  ((2 : Qc) ∈ py_slice_from 1%Z eigh_L12.1) /\
  (1 : Qc) ≤ 2.
Proof.
  assert (H1 : (1 : Qc) ∈ (eigenpairs (fun _ => eigh_L12) L12 1%Z).1)
    by (apply list_elem_of_singleton; reflexivity).
  assert (H2 : (2 : Qc) ∈ py_slice_from 1%Z eigh_L12.1)
    by (apply list_elem_of_singleton; reflexivity).
  split; [reflexivity|]. split; [exact H1|]. split; [exact H2|].
  exact (proj1 (proj2 eigenpairs_returns_smallest)
           (fun _ => eigh_L12) L12 1%Z 1 2 eq_refl H1 H2).
Defined.

(** ** Which pairs [eigenpairs] returns *)

Lemma py_slice_to_lookup {A} (k : Z) (l : list A) (j : nat) :
  (0 <= k)%Z -> (j < Z.to_nat k)%nat -> py_slice_to k l !! j = l !! j.
Proof.
  intros Hk Hj. unfold py_slice_to.
  rewrite (proj2 (Z.leb_le 0 k) Hk). by apply lookup_take_lt.
Qed.

Lemma column_py_slice_cols (k : Z) (u : matrix) (j : nat) :
  (0 <= k)%Z -> (j < Z.to_nat k)%nat ->
  column j (py_slice_cols k u) = column j u.
Proof.
  intros Hk Hj. unfold column, py_slice_cols.
  rewrite map_map. apply map_ext. intros row.
  by rewrite py_slice_to_lookup.
Qed.

(** X7. For [k >= 0] and every [j < k], the [j]-th eigenvalue and the
    [j]-th eigenvector column [eigenpairs] returns are the [j]-th ones of
    the decomposition: the slices keep each eigenvalue with its own
    eigenvector, so a pair returned is an eigenpair of [L] whenever the
    decomposition's is. *)
Theorem eigenpairs_keeps_pairs (eigh : matrix -> list Qc * matrix)
    (L : matrix) (k : Z) (j : nat) :
  (0 <= k)%Z ->
  (j < Z.to_nat k)%nat ->
  (eigenpairs eigh L k).1 !! j = (eigh L).1 !! j /\
  column j (eigenpairs eigh L k).2 = column j (eigh L).2 /\
  eigenpair_ok L (eigenpairs eigh L k).1 (eigenpairs eigh L k).2 j
  = eigenpair_ok L (eigh L).1 (eigh L).2 j.
Proof.
  intros Hk Hj. unfold eigenpairs. destruct (eigh L) as [l u]. simpl.
  assert (H1 : py_slice_to k l !! j = l !! j) by (by apply py_slice_to_lookup).
  assert (H2 : column j (py_slice_cols k u) = column j u)
    by (by apply column_py_slice_cols).
  split; [exact H1|]. split; [exact H2|].
  unfold eigenpair_ok. by rewrite H1, H2.
Qed.

Lemma eigenpairs_keeps_pairs_witness :
  (eigenpairs (fun _ => eigh_L12) L12 1%Z).1 !! 0%nat = eigh_L12.1 !! 0%nat /\
  column 0 (eigenpairs (fun _ => eigh_L12) L12 1%Z).2 = column 0 eigh_L12.2 /\
  eigenpair_ok L12 (eigenpairs (fun _ => eigh_L12) L12 1%Z).1
    (eigenpairs (fun _ => eigh_L12) L12 1%Z).2 0
  = eigenpair_ok L12 eigh_L12.1 eigh_L12.2 0.
Proof.
  apply (eigenpairs_keeps_pairs (fun _ => eigh_L12) L12 1%Z 0%nat); lia.
Defined.

(** X8. [k] is not checked against the dimension.  The number of
    eigenvalues returned is [min(k, n)] for [k >= 0] and [n - |k|]
    (Python's slicing from the end, never below zero) for a negative [k];
    with [k >= n] the whole decomposition is returned, with [k = 0] no
    eigenvalue and empty eigenvector rows. *)
Theorem eigenpairs_sizes (eigh : matrix -> list Qc * matrix) (L : matrix) (k : Z) :
  length (eigenpairs eigh L k).1
  = (if (0 <=? k)%Z then Nat.min (Z.to_nat k) (length (eigh L).1)
     else length (eigh L).1 - Z.to_nat (- k))%nat /\
  ((Z.of_nat (length (eigh L).1) <= k)%Z ->
   Forall (fun row => (length row <= length (eigh L).1)%nat) (eigh L).2 ->
   eigenpairs eigh L k = eigh L) /\
  (k = 0%Z ->
   eigenpairs eigh L k = ([], map (fun _ => []) (eigh L).2)).
Proof.
  unfold eigenpairs. destruct (eigh L) as [l u]. simpl.
  split; [|split].
  - unfold py_slice_to. destruct (0 <=? k)%Z.
    + by rewrite length_take.
    + rewrite length_take. lia.
  - intros Hk Hrows. f_equal.
    + unfold py_slice_to. rewrite (proj2 (Z.leb_le 0 k)) by lia.
      apply take_ge. lia.
    + unfold py_slice_cols. rewrite <- (map_id u) at 2.
      apply map_ext_in. intros row Hrow.
      rewrite Forall_forall in Hrows.
      specialize (Hrows row (proj2 (list_elem_of_In _ _) Hrow)).
      unfold py_slice_to. rewrite (proj2 (Z.leb_le 0 k)) by lia.
      apply take_ge. lia.
  - intros ->. reflexivity.
Qed.

Lemma eigenpairs_sizes_witness :
  eigenpairs (fun _ => eigh_L12) L12 5%Z = eigh_L12.
Proof.
  apply (proj1 (proj2 (eigenpairs_sizes (fun _ => eigh_L12) L12 5%Z))).
  - simpl. lia.
  - simpl. repeat constructor.
Defined.

End Eigen.

(** * The degree matrix: [degree] *)

Module Degree.

Local Open Scope Z_scope.

(** A rank-two array is the list of its rows ([Gather.shape2] gives its
    shape).  The arrays here are integer arrays: the entries are of a
    signed dtype of [bits] bits and the sums wrap around.  numpy sums
    signed integers in int64, TensorFlow in the dtype of the tensor. *)
Section degree.
Context (bits : Z).

(** The sum of two entries. *)
Definition add (x y : Z) : Z := wrap bits (x + y).

(** [a.sum(axis=0)] and [tf.reduce_sum(a, axis=0)]: the sum of the rows,
    entry by entry. *)
Definition sum_axis0 (a : list (list Z)) : list Z :=
  match a with
  | [] => []
  | r :: rs => foldl (zip_with add) r rs
  end.

(** [np.diag(v)] and [tf.linalg.diag(v)] of a rank-one [v]: the square
    array with [v] on the main diagonal and [0] elsewhere. *)
Definition diag (v : list Z) : list (list Z) :=
  imap (fun i x => <[i := x]> (replicate (length v) 0)) v.

(** numpy/extras.py and tensorflow/extras.py, [degree]. *)
Definition degree (a : list (list Z)) : list (list Z) :=
  let degrees := sum_axis0 a in
  diag degrees.

(** The entry of [a] at row [i] and column [j]. *)
Definition entry (a : list (list Z)) (i j : nat) : option Z :=
  row ← a !! i; row !! j.

(** The sum of column [j], as an integer. *)
Definition column_sum (a : list (list Z)) (j : nat) : Z :=
  foldr Z.add 0 (map (fun row => default 0 (row !! j)) a).

(** Every entry is a value of the dtype. *)
Definition entries_in_range (a : list (list Z)) : Prop :=
  Forall (Forall (in_range bits)) a.

Hypothesis Hbits : 0 < bits.

Lemma foldl_zip_with_add_length (rs : list (list Z)) : forall r m,
  length r = m -> Forall (fun r' => length r' = m) rs ->
  length (foldl (zip_with add) r rs) = m.
Proof.
  induction rs as [|r' rs IH]; intros r m Hr Hrs; simpl; [exact Hr|].
  apply Forall_cons in Hrs as [Hr' Hrs].
  apply IH; [|exact Hrs]. rewrite length_zip_with. lia.
Qed.

Lemma foldl_zip_with_add_lookup (rs : list (list Z)) : forall r m (j : nat) x,
  length r = m -> Forall (fun r' => length r' = m) rs ->
  r !! j = Some x -> in_range bits x ->
  foldl (zip_with add) r rs !! j
  = Some (wrap bits
            (x + foldr Z.add 0 (map (fun row => default 0 (row !! j)) rs))).
Proof.
  induction rs as [|r' rs IH]; intros r m j x Hr Hrs Hj Hx; simpl.
  - rewrite Hj. f_equal. rewrite Z.add_0_r. symmetry. by apply wrap_id.
  - apply Forall_cons in Hrs as [Hr' Hrs].
    destruct (r' !! j) as [y|] eqn:Hy.
    + rewrite (IH (zip_with add r r') m j (add x y)); simpl.
      * f_equal. unfold add. rewrite wrap_add_l by done. f_equal. lia.
      * rewrite length_zip_with. lia.
      * exact Hrs.
      * by rewrite lookup_zip_with, Hj, Hy.
      * by apply wrap_in_range.
    + apply lookup_ge_None in Hy. apply lookup_lt_Some in Hj. lia.
Qed.

Lemma shape2_rows (a : list (list Z)) n m :
  Gather.shape2 a = Some (n, m) ->
  length a = n /\ Forall (fun row => length row = m) a.
Proof.
  unfold Gather.shape2. destruct a as [|r rs].
  - intros [= <- <-]. split; [done|constructor].
  - destruct (forallb _ rs) eqn:Hall; [|discriminate].
    intros [= <- <-]. split; [done|].
    constructor; [done|].
    apply Forall_forall. intros r' Hr'.
    rewrite forallb_forall in Hall.
    apply Nat.eqb_eq, Hall. by apply list_elem_of_In.
Qed.

Lemma sum_axis0_length (a : list (list Z)) n m :
  Gather.shape2 a = Some (n, m) -> length (sum_axis0 a) = m.
Proof.
  intros Hs. destruct (shape2_rows a n m Hs) as [_ Hrows].
  destruct a as [|r rs]; simpl.
  - by injection Hs as <- <-.
  - apply Forall_cons in Hrows as [Hr Hrs].
    by apply foldl_zip_with_add_length.
Qed.

Lemma sum_axis0_rows_lookup (a : list (list Z)) m (j : nat) :
  a <> [] -> Forall (fun row => length row = m) a -> entries_in_range a ->
  (j < m)%nat ->
  sum_axis0 a !! j = Some (wrap bits (column_sum a j)).
Proof.
  intros Hne Hrows Hin Hj.
  destruct a as [|r rs]; [done|]. simpl.
  apply Forall_cons in Hrows as [Hr Hrs].
  apply Forall_cons in Hin as [Hinr _].
  destruct (r !! j) as [x|] eqn:Hx.
  - rewrite (foldl_zip_with_add_lookup rs r m j x Hr Hrs Hx).
    + unfold column_sum. simpl. by rewrite Hx.
    + rewrite Forall_forall in Hinr. apply Hinr.
      by eapply list_elem_of_lookup_2.
  - apply lookup_ge_None in Hx. lia.
Qed.

Lemma sum_axis0_lookup (a : list (list Z)) n m (j : nat) :
  Gather.shape2 a = Some (n, m) -> entries_in_range a -> (j < m)%nat ->
  sum_axis0 a !! j = Some (wrap bits (column_sum a j)).
Proof.
  intros Hs Hin Hj. destruct (shape2_rows a n m Hs) as [_ Hrows].
  apply (sum_axis0_rows_lookup a m j); try done.
  intros ->. injection Hs as <- <-. lia.
Qed.

Lemma diag_entry (v : list Z) (i j : nat) x :
  v !! i = Some x -> (j < length v)%nat ->
  entry (diag v) i j = Some (if bool_decide (i = j) then x else 0).
Proof.
  intros Hi Hj. unfold entry, diag.
  rewrite list_lookup_imap, Hi. simpl.
  case_bool_decide as Hij.
  - subst j. apply list_lookup_insert_eq. by rewrite length_replicate.
  - rewrite list_lookup_insert_ne by done.
    by apply lookup_replicate_2.
Qed.

Lemma diag_shape (v : list Z) :
  length (diag v) = length v /\
  Forall (fun row => length row = length v) (diag v).
Proof.
  unfold diag. split; [apply length_imap|].
  apply Forall_forall. intros row Hrow.
  apply list_elem_of_lookup in Hrow as [i Hi].
  rewrite list_lookup_imap in Hi.
  destruct (v !! i); simpl in Hi; [|done].
  injection Hi as <-. by rewrite length_insert, length_replicate.
Qed.

(** X14. For an [n] by [m] integer array [a], [degree(a)] is the [m] by
    [m] array whose diagonal entry [j] is the sum of column [j] of [a],
    wrapped around to the dtype the sum is taken in, and whose other
    entries are [0]. *)
Theorem degree_diagonal_of_column_sums (a : list (list Z)) (n m : nat) :
  Gather.shape2 a = Some (n, m) ->
  entries_in_range a ->
  Gather.shape2 (degree a) = Some (m, m) /\
  (forall i j : nat, (i < m)%nat -> (j < m)%nat ->
     entry (degree a) i j
     = Some (if bool_decide (i = j) then wrap bits (column_sum a j) else 0)) /\
  (forall j : nat, (j < m)%nat -> in_range bits (column_sum a j) ->
     entry (degree a) j j = Some (column_sum a j)).
Proof.
  intros Hs Hin. unfold degree.
  pose proof (sum_axis0_length a n m Hs) as Hlen.
  destruct (diag_shape (sum_axis0 a)) as [Hrows Hcols].
  rewrite Hlen in Hrows, Hcols.
  assert (He : forall i j : nat, (i < m)%nat -> (j < m)%nat ->
     entry (diag (sum_axis0 a)) i j
     = Some (if bool_decide (i = j) then wrap bits (column_sum a j) else 0)).
  { intros i j Hi Hj.
    rewrite (diag_entry (sum_axis0 a) i j (wrap bits (column_sum a i))).
    + by case_bool_decide; [subst j|].
    + by apply (sum_axis0_lookup a n m).
    + by rewrite Hlen. }
  split; [|split; [exact He|]].
  - unfold Gather.shape2.
    destruct (diag (sum_axis0 a)) as [|r rs] eqn:Hd.
    + simpl in Hrows. by rewrite <- Hrows.
    + apply Forall_cons in Hcols as [Hr Hrs].
      assert (Hall : forallb (fun r' => (length r' =? length r)%nat) rs = true).
      { apply forallb_forall. intros r' Hr'. apply Nat.eqb_eq.
        rewrite Forall_forall in Hrs. rewrite Hr. apply Hrs.
        by apply list_elem_of_In. }
      rewrite Hall. by rewrite Hrows, Hr.
  - intros j Hj Hr. rewrite (He j j Hj Hj), bool_decide_eq_true_2 by done.
    by rewrite wrap_id.
Qed.

(** X15. For a symmetric integer adjacency matrix the diagonal entry [i]
    of [degree(a)] is also the sum of row [i], wrapped around in the same
    way: the (weighted) number of neighbours of node [i]. *)
Theorem degree_symmetric_row_sums (a : list (list Z)) (n i : nat) (row : list Z) :
  Gather.shape2 a = Some (n, n) ->
  entries_in_range a ->
  (forall i j : nat, entry a i j = entry a j i) ->
  a !! i = Some row ->
  entry (degree a) i i = Some (wrap bits (foldr Z.add 0 row)).
Proof.
  intros Hs Hin Hsym Hi.
  destruct (shape2_rows a n n Hs) as [Hn Hrows].
  assert (Hlt : (i < n)%nat) by (rewrite <- Hn; by eapply lookup_lt_Some).
  destruct (degree_diagonal_of_column_sums a n n Hs Hin) as (_ & He & _).
  rewrite (He i i Hlt Hlt), bool_decide_eq_true_2 by done.
  f_equal. f_equal. unfold column_sum. f_equal.
  assert (Hrow : length row = n).
  { rewrite Forall_forall in Hrows. apply Hrows.
    by eapply list_elem_of_lookup_2. }
  apply list_eq. intros k.
  change (map ?f ?l) with (f <$> l). rewrite list_lookup_fmap.
  destruct (a !! k) as [rk|] eqn:Hk; simpl.
  - specialize (Hsym k i). unfold entry in Hsym.
    rewrite Hk, Hi in Hsym. simpl in Hsym. rewrite <- Hsym.
    assert (Hrk : length rk = n).
    { rewrite Forall_forall in Hrows. apply Hrows.
      by eapply list_elem_of_lookup_2. }
    destruct (rk !! i) as [x|] eqn:Hx; [done|].
    apply lookup_ge_None in Hx. lia.
  - apply lookup_ge_None in Hk. symmetry. apply lookup_ge_None. lia.
Qed.

End degree.

Lemma degree_diagonal_of_column_sums_witness :
  Gather.shape2 (degree 64 [[0; 1; 1]; [1; 0; 0]; [1; 0; 0]]) = Some (3%nat, 3%nat) /\
  (forall i j : nat, (i < 3)%nat -> (j < 3)%nat ->
     entry (degree 64 [[0; 1; 1]; [1; 0; 0]; [1; 0; 0]]) i j
     = Some (if bool_decide (i = j)
             then wrap 64 (column_sum [[0; 1; 1]; [1; 0; 0]; [1; 0; 0]] j)
             else 0)) /\
  (forall j : nat, (j < 3)%nat ->
     in_range 64 (column_sum [[0; 1; 1]; [1; 0; 0]; [1; 0; 0]] j) ->
     entry (degree 64 [[0; 1; 1]; [1; 0; 0]; [1; 0; 0]]) j j
     = Some (column_sum [[0; 1; 1]; [1; 0; 0]; [1; 0; 0]] j)).
Proof.
  apply (degree_diagonal_of_column_sums 64 ltac:(lia)
           [[0; 1; 1]; [1; 0; 0]; [1; 0; 0]] 3 3).
  - reflexivity.
  - repeat constructor; unfold in_range; simpl; lia.
Defined.

(** The degree matrix of a small graph, and a column whose sum passes the
    bound of int64. *)
Example degree_example :
  degree 64 [[0; 1; 1]; [1; 0; 0]; [1; 0; 0]] = [[2; 0; 0]; [0; 1; 0]; [0; 0; 1]] /\
  degree 64 [[2 ^ 62]; [2 ^ 62]] = [[- 2 ^ 63]].
Proof. split; vm_compute; reflexivity. Qed.

Lemma degree_symmetric_row_sums_witness :
  entry (degree 64 [[0; 1; 1]; [1; 0; 0]; [1; 0; 0]]) 0 0
  = Some (wrap 64 (foldr Z.add 0 [0; 1; 1])).
Proof.
  apply (degree_symmetric_row_sums 64 ltac:(lia)
           [[0; 1; 1]; [1; 0; 0]; [1; 0; 0]] 3 0 [0; 1; 1]).
  - reflexivity.
  - repeat constructor; unfold in_range; simpl; lia.
  - intros i j.
    destruct i as [|[|[|i]]], j as [|[|[|j]]]; try reflexivity.
    all: unfold entry; simpl; try reflexivity.
    all: try (by destruct j as [|[|[|j]]]).
    all: try (by destruct i as [|[|[|i]]]).
  - reflexivity.
Defined.

End Degree.

(** * Cumulative sums: [cumsum] (numpy backend) *)

Module Cumsum.

Local Open Scope Z_scope.

(** The arrays are integer arrays; numpy accumulates signed integers in
    int64, and the sums wrap around.  [bits] is the width of that dtype. *)
Section cumsum.
Context (bits : Z).

(** The running sums of a list, starting from [acc]. *)
Fixpoint cumsum_from (acc : Z) (l : list Z) : list Z :=
  match l with
  | [] => []
  | x :: l' => Degree.add bits acc x :: cumsum_from (Degree.add bits acc x) l'
  end.

(** The running sums of the rows of a rank-two array, starting from the
    row [acc]. *)
Fixpoint cumsum_rows_from (acc : list Z) (rows : list (list Z)) : list (list Z) :=
  match rows with
  | [] => []
  | r :: rs =>
      let s := zip_with (Degree.add bits) acc r in
      s :: cumsum_rows_from s rs
  end.

Definition cumsum_rows (rows : list (list Z)) : list (list Z) :=
  match rows with
  | [] => []
  | r :: rs => r :: cumsum_rows_from r rs
  end.

(** [np.cumsum(a, axis)]: without an axis the running sums of the
    flattened array, with one the running sums along it. *)
Definition np_cumsum (a : Gather.ndarray) (axis : option Z)
    : result Gather.ndarray :=
  match axis with
  | None => ret (Gather.Arr1 (cumsum_from 0 (Gather.flatten a)))
  | Some ax =>
      match a with
      | Gather.Arr1 l =>
          bind (Gather.normalize_axis (ValueError "axis is out of bounds") 1 ax)
            (fun _ => ret (Gather.Arr1 (cumsum_from 0 l)))
      | Gather.Arr2 rows =>
          bind (Gather.normalize_axis (ValueError "axis is out of bounds") 2 ax)
            (fun ax' =>
               if ax' =? 0 then ret (Gather.Arr2 (cumsum_rows rows))
               else ret (Gather.Arr2 (map (cumsum_from 0) rows)))
      end
  end.

(** numpy/extras.py, [cumsum]; [axis] defaults to [None]. *)
Definition cumsum (a : Gather.ndarray) (axis : option Z) : result Gather.ndarray :=
  np_cumsum a axis.

(** The sum of a list, as an integer. *)
Definition total (l : list Z) : Z := foldr Z.add 0 l.

Hypothesis Hbits : 0 < bits.

Lemma cumsum_from_length acc l : length (cumsum_from acc l) = length l.
Proof. revert acc. induction l as [|x l IH]; intros acc; simpl; [done|]. by rewrite IH. Qed.

Lemma cumsum_from_lookup l : forall acc (j : nat),
  (j < length l)%nat ->
  cumsum_from acc l !! j = Some (wrap bits (acc + total (take (S j) l))).
Proof.
  induction l as [|x l IH]; intros acc j Hj; simpl in *; [lia|].
  destruct j as [|j]; simpl.
  - unfold total, Degree.add. simpl. f_equal. f_equal. destruct l; simpl; lia.
  - rewrite IH by lia. f_equal. unfold total, Degree.add. simpl.
    rewrite wrap_add_l by done. f_equal. lia.
Qed.

Lemma cumsum_from_succ l : forall acc (j : nat) x y z,
  cumsum_from acc l !! j = Some x ->
  cumsum_from acc l !! S j = Some y ->
  l !! S j = Some z ->
  y = wrap bits (x + z).
Proof.
  induction l as [|a l IH]; intros acc j x y z Hx Hy Hz; simpl in *; [done|].
  destruct j as [|j]; simpl in *.
  - injection Hx as <-. destruct l as [|b l]; simpl in *; [done|].
    injection Hy as <-. injection Hz as <-. reflexivity.
  - by eapply IH.
Qed.

Lemma cumsum_rows_from_lookup rows : forall acc (i : nat),
  (i < length rows)%nat ->
  cumsum_rows_from acc rows !! i
  = Some (foldl (zip_with (Degree.add bits)) acc (take (S i) rows)).
Proof.
  induction rows as [|r rows IH]; intros acc i Hi; simpl in *; [lia|].
  destruct i as [|i]; simpl.
  - by destruct rows.
  - by rewrite IH by lia.
Qed.

Lemma cumsum_rows_lookup rows (i : nat) :
  (i < length rows)%nat ->
  cumsum_rows rows !! i = Some (Degree.sum_axis0 bits (take (S i) rows)).
Proof.
  destruct rows as [|r rows]; simpl; intros Hi; [lia|].
  destruct i as [|i]; simpl.
  - by destruct rows.
  - by rewrite cumsum_rows_from_lookup by lia.
Qed.

Lemma cumsum_rows_length rows : length (cumsum_rows rows) = length rows.
Proof.
  destruct rows as [|r rows]; simpl; [done|]. f_equal.
  revert r. induction rows as [|r' rows IH]; intros r; simpl; [done|].
  by rewrite IH.
Qed.

Lemma cumsum_rank1 (l : list Z) (axis : option Z) :
  axis = None \/ axis = Some 0 \/ axis = Some (-1) ->
  cumsum (Gather.Arr1 l) axis = ret (Gather.Arr1 (cumsum_from 0 l)).
Proof. intros [-> | [-> | ->]]; reflexivity. Qed.

(** X16. On a rank-one integer array (with no axis, or axis 0 or -1)
    [cumsum] returns an array of the same length whose entry [j] is the
    sum of the entries [0..j] of the input, wrapped around to int64; its
    last entry is the wrapped sum of the whole input.  Where a sum is
    within the range of the dtype, the entry is that sum. *)
Theorem cumsum_prefix_sums (l : list Z) (axis : option Z) :
  axis = None \/ axis = Some 0 \/ axis = Some (-1) ->
  exists out,
    cumsum (Gather.Arr1 l) axis = ret (Gather.Arr1 out) /\
    length out = length l /\
    (forall j : nat, (j < length l)%nat ->
       out !! j = Some (wrap bits (total (take (S j) l)))) /\
    (forall j : nat, (j < length l)%nat -> in_range bits (total (take (S j) l)) ->
       out !! j = Some (total (take (S j) l))) /\
    (l <> [] -> last out = Some (wrap bits (total l))).
Proof.
  intros Hax. exists (cumsum_from 0 l).
  split; [by apply cumsum_rank1|].
  split; [apply cumsum_from_length|].
  split; [|split].
  - intros j Hj. by rewrite cumsum_from_lookup by done.
  - intros j Hj Hr. rewrite cumsum_from_lookup by done. simpl.
    by rewrite wrap_id.
  - intros Hl. rewrite last_lookup, cumsum_from_length.
    destruct l as [|x l]; [done|]. simpl length. simpl pred.
    rewrite cumsum_from_lookup by (simpl; lia).
    by rewrite take_ge by (simpl; lia).
Qed.

(** X17. The input is recovered from the result of [cumsum] on a rank-one
    integer array: the first entry of the result is the first entry of the
    input, and each later entry of the input is the difference of two
    successive entries of the result, taken in the same wrapping
    arithmetic. *)
Theorem cumsum_differences (l : list Z) (axis : option Z) :
  axis = None \/ axis = Some 0 \/ axis = Some (-1) ->
  Forall (in_range bits) l ->
  exists out,
    cumsum (Gather.Arr1 l) axis = ret (Gather.Arr1 out) /\
    out !! 0%nat = l !! 0%nat /\
    (forall (j : nat) z, l !! S j = Some z ->
       exists x y, out !! j = Some x /\ out !! S j = Some y /\
                   wrap bits (y - x) = z).
Proof.
  intros Hax Hin. exists (cumsum_from 0 l).
  split; [by apply cumsum_rank1|].
  split.
  { destruct l as [|x l]; [done|]. simpl. f_equal.
    apply Forall_cons in Hin as [Hx _]. unfold Degree.add. simpl.
    by apply wrap_id. }
  intros j z Hz.
  assert (Hj : (S j < length l)%nat) by (by eapply lookup_lt_Some).
  assert (Hzr : in_range bits z).
  { rewrite Forall_forall in Hin. apply Hin. by eapply list_elem_of_lookup_2. }
  eexists _, _.
  split; [apply cumsum_from_lookup; lia|].
  split; [apply cumsum_from_lookup; lia|].
  assert (Ht : total (take (S (S j)) l) = total (take (S j) l) + z).
  { clear -Hz. revert j Hz. unfold total.
    induction l as [|a l IH]; intros j Hz; [done|].
    destruct j as [|j].
    - destruct l as [|b l]; [done|]. simpl in Hz. injection Hz as <-.
      simpl. destruct l; simpl; lia.
    - simpl in Hz. specialize (IH j Hz).
      change (take (S (S (S j))) (a :: l)) with (a :: take (S (S j)) l).
      change (take (S (S j)) (a :: l)) with (a :: take (S j) l).
      cbn [foldr]. lia. }
  rewrite Ht, !Z.add_0_l, wrap_sub by done.
  rewrite <- (wrap_id bits z Hbits Hzr) at 2. f_equal. lia.
Qed.

(** X18. On a rank-two integer array, [cumsum] along axis 0 returns an
    array with as many rows, whose row [i] is the entry-wise sum of the
    rows [0..i] of the input, as [a[:i+1].sum(axis=0)] gives it: its entry
    in column [j] is the sum of the first [i+1] entries of column [j],
    wrapped around to int64. *)
Theorem cumsum_rank2 (rows : list (list Z)) (m : nat) :
  Forall (fun row => length row = m) rows ->
  Degree.entries_in_range bits rows ->
  exists out,
    cumsum (Gather.Arr2 rows) (Some 0) = ret (Gather.Arr2 out) /\
    length out = length rows /\
    (forall i : nat, (i < length rows)%nat ->
       out !! i = Some (Degree.sum_axis0 bits (take (S i) rows))) /\
    (forall i j : nat, (i < length rows)%nat -> (j < m)%nat ->
       Degree.entry out i j
       = Some (wrap bits (Degree.column_sum (take (S i) rows) j))).
Proof.
  intros Hrows Hin.
  exists (cumsum_rows rows).
  split; [reflexivity|]. split; [apply cumsum_rows_length|].
  split; [intros i Hi; by apply cumsum_rows_lookup|].
  intros i j Hi Hj. unfold Degree.entry.
  rewrite cumsum_rows_lookup by done. simpl.
  apply (Degree.sum_axis0_rows_lookup bits Hbits _ m); try done.
  - destruct rows; [simpl in Hi; lia|done].
  - by apply Forall_take.
  - by apply Forall_take.
Qed.

End cumsum.

Lemma cumsum_prefix_sums_witness :
  exists out,
    cumsum 64 (Gather.Arr1 [1; 2; 3]) None = ret (Gather.Arr1 out) /\
    length out = length [1; 2; 3] /\
    (forall j : nat, (j < length [1; 2; 3])%nat ->
       out !! j = Some (wrap 64 (total (take (S j) [1; 2; 3])))) /\
    (forall j : nat, (j < length [1; 2; 3])%nat ->
       in_range 64 (total (take (S j) [1; 2; 3])) ->
       out !! j = Some (total (take (S j) [1; 2; 3]))) /\
    ([1; 2; 3] <> [] -> last out = Some (wrap 64 (total [1; 2; 3]))).
Proof.
  apply (cumsum_prefix_sums 64 ltac:(lia) [1; 2; 3] None). by left.
Defined.

Lemma cumsum_differences_witness :
  exists out,
    cumsum 64 (Gather.Arr1 [1; 2; 3]) (Some 0) = ret (Gather.Arr1 out) /\
    out !! 0%nat = [1; 2; 3] !! 0%nat /\
    (forall (j : nat) z, [1; 2; 3] !! S j = Some z ->
       exists x y, out !! j = Some x /\ out !! S j = Some y /\
                   wrap 64 (y - x) = z).
Proof.
  apply (cumsum_differences 64 ltac:(lia) [1; 2; 3] (Some 0)).
  - right. by left.
  - repeat constructor; unfold in_range; simpl; lia.
Defined.

Lemma cumsum_rank2_witness :
  exists out,
    cumsum 64 (Gather.Arr2 [[1; 1]; [1; 1]]) (Some 0) = ret (Gather.Arr2 out) /\
    length out = length [[1; 1]; [1; 1]] /\
    (forall i : nat, (i < length [[1; 1]; [1; 1]])%nat ->
       out !! i = Some (Degree.sum_axis0 64 (take (S i) [[1; 1]; [1; 1]]))) /\
    (forall i j : nat, (i < length [[1; 1]; [1; 1]])%nat -> (j < 2)%nat ->
       Degree.entry out i j
       = Some (wrap 64 (Degree.column_sum (take (S i) [[1; 1]; [1; 1]]) j))).
Proof.
  apply (cumsum_rank2 64 ltac:(lia) [[1; 1]; [1; 1]] 2).
  - repeat constructor.
  - repeat constructor; unfold in_range; simpl; lia.
Defined.

(** Runs of [cumsum], the second past the bound of int64. *)
Example cumsum_examples :
  cumsum 64 (Gather.Arr1 [1; 2; 3]) None = ret (Gather.Arr1 [1; 3; 6]) /\
  cumsum 64 (Gather.Arr1 [2 ^ 62; 2 ^ 62]) None
  = ret (Gather.Arr1 [2 ^ 62; - 2 ^ 63]) /\
  cumsum 64 (Gather.Arr2 [[1; 1]; [1; 1]]) (Some 0)
  = ret (Gather.Arr2 [[1; 1]; [2; 2]]) /\
  cumsum 64 (Gather.Arr2 [[1; 1]; [1; 1]]) (Some 1)
  = ret (Gather.Arr2 [[1; 2]; [1; 2]]) /\
  cumsum 64 (Gather.Arr2 [[1; 1]; [1; 1]]) None = ret (Gather.Arr1 [1; 2; 3; 4]).
Proof. repeat split; vm_compute; reflexivity. Qed.

End Cumsum.

(** * Complex values: [create_complex] *)

Module Complex.

Local Open Scope Qc_scope.

(** ** Arithmetic on elements

    Sums are [Reciprocal.fadd]; negation and product follow IEEE 754 on
    infinities and NaN: zero times an infinity is NaN. *)
Definition fneg (v : fval) : fval :=
  match v with
  | Fin q => Fin (- q)
  | PInf => NInf
  | NInf => PInf
  | NaN => NaN
  end.

(** The product of the rational [q] and the infinity [i]. *)
Definition scale_inf (q : Qc) (i : fval) : fval :=
  if bool_decide (q = 0) then NaN
  else if bool_decide (0 < q) then i else fneg i.

Definition fmul (v w : fval) : fval :=
  match v, w with
  | NaN, _ | _, NaN => NaN
  | Fin a, Fin b => Fin (a * b)
  | Fin a, PInf => scale_inf a PInf
  | Fin a, NInf => scale_inf a NInf
  | PInf, Fin b => scale_inf b PInf
  | NInf, Fin b => scale_inf b NInf
  | PInf, PInf | NInf, NInf => PInf
  | PInf, NInf | NInf, PInf => NInf
  end.

Definition fsub (v w : fval) : fval := Reciprocal.fadd v (fneg w).

Definition is_finite (v : fval) : bool :=
  match v with Fin _ => true | _ => false end.

(** A complex number: its real and imaginary parts. *)
Record complex := Cx { re : fval; im : fval }.

Definition cadd (z w : complex) : complex :=
  Cx (Reciprocal.fadd (re z) (re w)) (Reciprocal.fadd (im z) (im w)).

Definition cmul (z w : complex) : complex :=
  Cx (fsub (fmul (re z) (re w)) (fmul (im z) (im w)))
     (Reciprocal.fadd (fmul (re z) (im w)) (fmul (im z) (re w))).

(** A real number as a complex one, and the literal [1j]. *)
Definition of_real (r : fval) : complex := Cx r (Fin 0).
Definition imaginary_unit : complex := Cx (Fin 0) (Fin 1).

(** numpy/extras.py, [create_complex]: [real + 1j * imag], in complex
    arithmetic. *)
Definition create_complex_np (real imag : complex) : complex :=
  let complex_num := cadd real (cmul imaginary_unit imag) in
  complex_num.

(** [tf.complex(real, imag)], defined on real tensors: the two parts are
    stored. *)
Definition tf_complex (real imag : fval) : complex := Cx real imag.

(** tensorflow/extras.py, [create_complex]: [real] is converted to a tensor
    and cast to the dtype of [imag], which keeps its value. *)
Definition create_complex_tf (real imag : fval) : complex :=
  let complex_num := tf_complex real imag in
  complex_num.

Lemma fadd_0_r v : Reciprocal.fadd v (Fin 0) = v.
Proof. destruct v as [q| | |]; simpl; try done. by rewrite Qcplus_0_r. Qed.

Lemma create_complex_np_finite (real : fval) (q : Qc) :
  create_complex_np (of_real real) (of_real (Fin q)) = Cx real (Fin q).
Proof.
  unfold create_complex_np, cadd, cmul, imaginary_unit, of_real, fsub. simpl.
  replace (0 * q + - (1 * 0)) with 0 by ring.
  replace (0 + (0 * 0 + 1 * q)) with q by ring.
  by rewrite fadd_0_r.
Qed.

Lemma create_complex_np_not_finite (real imag : fval) :
  is_finite imag = false ->
  create_complex_np (of_real real) (of_real imag) = Cx NaN imag.
Proof.
  intros Hi. destruct imag as [q| | |]; [done| | |];
    unfold create_complex_np, cadd, cmul, imaginary_unit, of_real, fsub;
    simpl; unfold scale_inf;
    rewrite ?(bool_decide_eq_true_2 (0 = 0)) by done; simpl;
    by destruct real.
Qed.


End Complex.

